(** * IDPConformerGenerator: the structural assembly and collision engine

    A shallow embedding of [idpconfgen/ldrs_helper.py] and
    [idpconfgen/fldrs_helper.py], with what they use of
    [idpconfgen/core/exceptions.py], and of [group_by] of
    [idpconfgen/libs/libparse.py]: chain-break detection, the alignment
    of a fragment on its anchor, steric clash counting with an early
    exit, the rotation retry loop, the sliding window search that closes
    a chain break, and the protein surgeon.

    Conventions of the embedding.
    - A Python [float] and a [numpy.float64] are IEEE binary64 numbers:
      Rocq's primitive [float], with the same rounding of decimal literals.
    - A row of the structure array is the record [atom]; the text cells
      that the code reads through [int(...)] or [.astype(float)] are
      stored already read ([Z], [float]).
    - An exception is a value of [exn]; a function that may raise returns
      a [res].
    - [numpy.arccos], [numpy.sin], [numpy.cos], [numpy.linalg.svd],
      [round], the van-der-Waals table, the one-letter residue table,
      [has_string_formatters] and [contact_message] are not part of
      these modules: they are variables of the sections that use
      them. *)

From Stdlib Require Import ZArith List String Bool Lia.
From Stdlib Require Import Floats.
Import ListNotations.

Set Warnings "-inexact-float".

Local Open Scope string_scope.
Local Open Scope list_scope.
Local Open Scope Z_scope.

(** ** Python values, exceptions and indexing *)

Module Py.

Inductive exn : Type :=
| IndexError
| ValueError
| KeyError
| TypeError
| AssertionError
| UnboundLocalError
| IDPConfGenException.

Inductive res (A : Type) : Type :=
| Ok (a : A)
| Raise (e : exn).

Arguments Ok {A} a.
Arguments Raise {A} e.

Definition bind {A B : Type} (m : res A) (k : A -> res B) : res B :=
  match m with
  | Ok a => k a
  | Raise e => Raise e
  end.

Fixpoint mapM {A B : Type} (f : A -> res B) (l : list A) : res (list B) :=
  match l with
  | [] => Ok []
  | a :: l' =>
      bind (f a) (fun b => bind (mapM f l') (fun bs => Ok (b :: bs)))
  end.

(** What a call returns that is either a Python [int] or a [bool]. *)
Inductive value : Type :=
| PyInt (n : Z)
| PyBool (b : bool).

(** [v == True]: a [bool] is an [int] in Python, and [1 == True] holds. *)
Definition eq_True (v : value) : bool :=
  match v with
  | PyInt n => n =? 1
  | PyBool b => b
  end.

(** [type(v) is int]: false of [True]. *)
Definition type_is_int (v : value) : bool :=
  match v with
  | PyInt _ => true
  | PyBool _ => false
  end.

(** Truth value of a string used as a condition. *)
Definition truthy (s : string) : bool :=
  negb (String.eqb s "").

Definition len {A : Type} (l : list A) : Z := Z.of_nat (List.length l).

(** [l[i]] for a list or a one-dimensional array: a negative index counts
    from the end, anything outside [-len, len) raises [IndexError]. *)
Definition index {A : Type} (l : list A) (i : Z) : res A :=
  let k := if i <? 0 then len l + i else i in
  if k <? 0 then Raise IndexError
  else match nth_error l (Z.to_nat k) with
       | Some a => Ok a
       | None => Raise IndexError
       end.

(** [l[:-1]] and [l[1:]]. *)
Definition but_last {A : Type} (l : list A) : list A := removelast l.
Definition but_first {A : Type} (l : list A) : list A := tl l.

(** [enumerate(l)] *)
Fixpoint enumerate_from {A : Type} (i : Z) (l : list A) : list (Z * A) :=
  match l with
  | [] => []
  | a :: l' => (i, a) :: enumerate_from (i + 1) l'
  end.

Definition enumerate {A : Type} (l : list A) : list (Z * A) :=
  enumerate_from 0 l.

(** [range(lo, hi, step)] for a positive step, by the number of elements
    still to produce. *)
Fixpoint range_from (n : nat) (lo step : Z) : list Z :=
  match n with
  | O => []
  | S n' => lo :: range_from n' (lo + step) step
  end.

Definition range (lo hi step : Z) : list Z :=
  if hi <=? lo then []
  else range_from (Z.to_nat ((hi - lo + step - 1) / step)) lo step.

End Py.

Export Py.

Declare Scope py_scope.
Notation "x <- m ;; k" := (bind m (fun x => k))
  (at level 61, m at next level, right associativity) : py_scope.
Local Open Scope py_scope.

(** ** Coordinates and rows *)

Record vec3 : Type := V3 { vx : float; vy : float; vz : float }.

Definition vsub (a b : vec3) : vec3 :=
  V3 (vx a - vx b)%float (vy a - vy b)%float (vz a - vz b)%float.

Definition vadd (a b : vec3) : vec3 :=
  V3 (vx a + vx b)%float (vy a + vy b)%float (vz a + vz b)%float.

Definition vscale (k : float) (a : vec3) : vec3 :=
  V3 (k * vx a)%float (k * vy a)%float (k * vz a)%float.

(** [np.dot] of two vectors of three components. *)
Definition dot (a b : vec3) : float :=
  (vx a * vx b + vy a * vy b + vz a * vz b)%float.

(** [np.linalg.norm] of one row: the square root of the sum of squares. *)
Definition norm (a : vec3) : float := PrimFloat.sqrt (dot a a).

(** An array of three rows of three numbers. *)
Record mat3 : Type := M3 { row0 : vec3; row1 : vec3; row2 : vec3 }.

(** [m.T] *)
Definition transpose (m : mat3) : mat3 :=
  M3 (V3 (vx (row0 m)) (vx (row1 m)) (vx (row2 m)))
     (V3 (vy (row0 m)) (vy (row1 m)) (vy (row2 m)))
     (V3 (vz (row0 m)) (vz (row1 m)) (vz (row2 m))).

(** One row of [np.dot(rows, m)]. *)
Definition vecmat (v : vec3) (m : mat3) : vec3 :=
  V3 (vx v * vx (row0 m) + vy v * vx (row1 m) + vz v * vx (row2 m))%float
     (vx v * vy (row0 m) + vy v * vy (row1 m) + vz v * vy (row2 m))%float
     (vx v * vz (row0 m) + vy v * vz (row1 m) + vz v * vz (row2 m))%float.

(** [np.dot(a, b)] *)
Definition matmul (a b : mat3) : mat3 :=
  M3 (vecmat (row0 a) b) (vecmat (row1 a) b) (vecmat (row2 a) b).

(** [m.mean(axis=0)] *)
Definition mean_axis0 (m : mat3) : vec3 :=
  V3 ((vx (row0 m) + vx (row1 m) + vx (row2 m)) / 3)%float
     ((vy (row0 m) + vy (row1 m) + vy (row2 m)) / 3)%float
     ((vz (row0 m) + vz (row1 m) + vz (row2 m)) / 3)%float.

(** [m - m.mean(axis=0)] *)
Definition centered (m : mat3) : mat3 :=
  let c := mean_axis0 m in
  M3 (vsub (row0 m) c) (vsub (row1 m) c) (vsub (row2 m) c).

(** One row of the structure array, with the columns the code uses. *)
Record atom : Type := Atom {
  col_serial : Z;
  col_name : string;
  col_element : string;
  col_resName : string;
  col_resSeq : Z;
  col_chainID : string;
  col_segid : string;
  cols_coords : vec3
}.

(** The dictionary [disorder_cases]; the code only reads its keys 0, 1
    and 2. *)
Definition disorder_cases (k : Z) : string :=
  if k =? 0 then "N-IDR"
  else if k =? 1 then "Break-IDR"
  else if k =? 2 then "C-IDR"
  else "".

(** [np.sqrt(np.sum((coords1 - coords2) ** 2))] *)
Definition calculate_distance (coords1 coords2 : vec3) : float :=
  norm (vsub coords1 coords2).

(** ** [int] of a float *)

Module PyFloat.

(** What [int(x)] gives for a float: the integer, or one of its two
    exceptions ([ValueError] for NaN, [OverflowError] for an infinity). *)
Inductive conv : Type :=
| Int (n : Z)
| IntOfNaN
| IntOfInfinity.

(** [int(x)]: the value of [x] cut towards zero. *)
Definition py_int (x : float) : conv :=
  match Prim2SF x with
  | S754_zero _ => Int 0
  | S754_infinity _ => IntOfInfinity
  | S754_nan => IntOfNaN
  | S754_finite s m e =>
      let v := if 0 <=? e then Z.pos m * 2 ^ e else Z.pos m / 2 ^ (- e) in
      Int (if s then - v else v)
  end.

End PyFloat.

(** ** [core/exceptions.py] *)

Module Exceptions.

Import Ascii.

(** [s.count('{}')] *)
Fixpoint count_braces (s : string) : Z :=
  match s with
  | EmptyString => 0
  | String c rest =>
      match rest with
      | String c' rest' =>
          if (Ascii.eqb c "{"%char && Ascii.eqb c' "}"%char)%bool
          then 1 + count_braces rest'
          else count_braces rest
      | EmptyString => 0
      end
  end.

Section Init.

(** [has_string_formatters] of [idpconfgen.core] and [contact_message] of
    [idpconfgen.contactus]: neither module is part of the sources. *)
Variable has_string_formatters : string -> bool.
Variable contact_message : string.

(** The class attribute [errmsg]. *)
Definition errmsg : string :=
  String.append "An unknnown error as occurred. " contact_message.

(** A call of [IDPConfGenException] with positional arguments [args]
    and without the keyword [errmsg]: what the call leaves with. The two branches bind [self.errmsg] and
    [self.args]; the closing [assert] compares the number of '{}' in the
    message with the number of arguments, and when it fails the
    exception that leaves is its [AssertionError]. *)
Definition init (args : list string) : exn :=
  let bound :=
    match args with
    | a :: rest =>
        if has_string_formatters a then (a, rest) else (errmsg, args)
    | [] => (errmsg, args)
    end in
  if count_braces (fst bound) =? len (snd bound)
  then IDPConfGenException
  else AssertionError.

End Init.

End Exceptions.

(** ** [ldrs_helper.py] *)

Module Ldrs.

(** *** [consecutive_grouper] *)

(** The loop over [seq[1:]]. [grouped] is never empty; it is carried as
    the groups already closed and the group [grouped[-1]] still open. *)
Fixpoint grouper_loop (closed : list (list Z)) (open : list Z) (last : Z)
    (xs : list Z) : list (list Z) :=
  match xs with
  | [] => closed ++ [open]
  | x :: xs' =>
      if x =? last + 1
      then grouper_loop closed (open ++ [x]) x xs'
      else grouper_loop (closed ++ [open]) [x] x xs'
  end.

(** [(first, last + 1)] of one group. *)
Definition group_bounds (group : list Z) : res (Z * Z) :=
  first <- index group 0 ;;
  last <- index group (len group - 1) ;;
  Ok (first, last + 1).

Definition consecutive_grouper (seq : list Z) : res (list (Z * Z)) :=
  x0 <- index seq 0 ;;
  mapM group_bounds (grouper_loop [] [x0] x0 (but_first seq)).

(** *** [break_check] *)

(** The rows whose name is [nm], through a boolean mask. *)
Definition mask_rows (nm : string) (names : list string)
    (coords_raw : list vec3) : list vec3 :=
  map snd (filter (fun p => String.eqb (fst p) nm) (combine names coords_raw)).

(** [coords[k::3, :] = rows] when the slice has [n] rows: numpy copies
    [rows] when it has [n] rows, repeats it when it has exactly one row
    (broadcasting), and raises [ValueError] otherwise. *)
Definition assign_strided (n : nat) (rows : list vec3) : res (list vec3) :=
  if Nat.eqb (List.length rows) n then Ok rows
  else match rows with
       | [r] => Ok (repeat r n)
       | _ => Raise ValueError
       end.

Fixpoint interleave (n ca c : list vec3) : list vec3 :=
  match n, ca, c with
  | x :: n', y :: ca', z :: c' => x :: y :: z :: interleave n' ca' c'
  | _, _, _ => []
  end.

Section BreakCheck.

(** What [IDPConfGenException] reads from modules that are not part of
    the sources. *)
Variable has_string_formatters : string -> bool.
Variable contact_message : string.

(** The [try] block: the array of [3 * len(n)] rows filled with the N, CA
    and C rows. A [ValueError] is answered by
    [raise IDPConfGenException(errmsg) from err]: the call of the class
    with the one message decides what leaves. *)
Definition backbone_coords (n ca c : list vec3) : res (list vec3) :=
  match
    (n0 <- assign_strided (List.length n) n ;;
     ca0 <- assign_strided (List.length n) ca ;;
     c0 <- assign_strided (List.length n) c ;;
     Ok (interleave n0 ca0 c0))
  with
  | Raise ValueError =>
      Raise (Exceptions.init has_string_formatters contact_message
               ["Coordinates do not match expectation. Some possibly missing."])
  | r => r
  end.

(** [np.linalg.norm(coords[:-1, :] - coords[1:, :], axis=1)] *)
Fixpoint coords_distances (coords : list vec3) : list float :=
  match coords with
  | a :: (b :: _) as rest => norm (vsub a b) :: coords_distances rest
  | _ => []
  end.

(** The first half of [break_check], up to the assertion: the distances
    between consecutive atoms of the interleaved backbone. The argument
    is [structure.filtered_atoms] after [add_filter_backbone(minimal=True)],
    whose coordinates are [structure.coords]. *)
Definition backbone_distances (data : list atom) : res (list float) :=
  let names := map col_name data in
  let coords_raw := map cols_coords data in
  let n := mask_rows "N" names coords_raw in
  let ca := mask_rows "CA" names coords_raw in
  let c := mask_rows "C" names coords_raw in
  coords <- backbone_coords n ca c ;;
  let d := coords_distances coords in
  if len d =? len coords - 1 then Ok d else Raise AssertionError.

(** The indices [i] with [dist < 2.1]. *)
Definition whole_indices (d : list float) : list Z :=
  map fst (filter (fun p => (snd p <? 2.1)%float) (enumerate d)).

(** [aa3to1.get]: [None] for a residue name that is not in the table. *)
Variable aa3to1_get : string -> option string.

(** [''.join(aa3to1.get(f) for f in names)]: joining [None] is a
    [TypeError]. *)
Fixpoint join_codes (names : list string) : res string :=
  match names with
  | [] => Ok EmptyString
  | f :: names' =>
      match aa3to1_get f with
      | None => Raise TypeError
      | Some s => rest <- join_codes names' ;; Ok (String.append s rest)
      end
  end.

(** [data[:, col_resName][fld_idx]] for a list of indices. *)
Definition fancy_index (col : list string) (idx : list Z) : res (list string) :=
  mapM (index col) idx.

Definition fld_seq (data : list atom) (idx : Z * Z) : res string :=
  let fld_idx := range (fst idx) (snd idx) 3 in
  names <- fancy_index (map col_resName data) fld_idx ;;
  join_codes names.

(** [break_check]: [Ok None] is the bare [return]. *)
Definition break_check (data : list atom) : res (option (list string)) :=
  coords_distances <- backbone_distances data ;;
  if existsb (fun dist => (2.1 <? dist)%float) coords_distances then
    whole <- consecutive_grouper (whole_indices coords_distances) ;;
    fld_seqs <- mapM (fld_seq data) whole ;;
    Ok (Some fld_seqs)
  else Ok None.

End BreakCheck.

(** *** [count_clashes] *)

(** Where a loop body stands after one pass: the function has returned,
    or the loop goes on with its state. *)
Inductive flow (R S : Type) : Type :=
| Returned (r : R)
| Running (s : S).

Arguments Returned {R S} r.
Arguments Running {R S} s.

(** [fragment_atoms] and [fragment_coords] are sliced together; they are
    carried as one list of pairs (element, coordinates). *)
Definition sites (arr : list atom) : list (string * vec3) :=
  combine (map col_element arr) (map cols_coords arr).

(** The loop of the first branch: one site is dropped from the end for
    each [j] whose [fragment_seq[j - 1]] can be read, until that residue
    number is three below the last one. *)
Fixpoint trim_back (fragment_seq : list Z) (last_r : Z) (steps : list (Z * Z))
    (frag : list (string * vec3)) : res (list (string * vec3)) :=
  match steps with
  | [] => Ok frag
  | (i, _) :: steps' =>
      let j := len fragment_seq - 1 - i in
      match index fragment_seq (j - 1) with
      | Raise IndexError => trim_back fragment_seq last_r steps' frag
      | Raise e => Raise e
      | Ok prev =>
          let frag' := but_last frag in
          if last_r - prev =? 3 then Ok frag'
          else trim_back fragment_seq last_r steps' frag'
      end
  end.

(** The loop of the [elif] branch: sites are dropped from the front. *)
Fixpoint trim_front (fragment_seq : list Z) (first_r : Z) (steps : list (Z * Z))
    (frag : list (string * vec3)) : res (list (string * vec3)) :=
  match steps with
  | [] => Ok frag
  | (i, _) :: steps' =>
      match index fragment_seq (i + 1) with
      | Raise IndexError => trim_front fragment_seq first_r steps' frag
      | Raise e => Raise e
      | Ok next =>
          let frag' := but_first frag in
          if next - first_r =? 3 then Ok frag'
          else trim_front fragment_seq first_r steps' frag'
      end
  end.

(** The sites of the fragment that take part in the count. The first
    condition is [case == disorder_cases[0] or disorder_cases[1]]: the
    right operand of [or] is the string itself. *)
Definition trim_fragment (fragment : list atom) (case : string)
    : res (list (string * vec3)) :=
  let fragment_seq := map col_resSeq fragment in
  first_r <- index fragment_seq 0 ;;
  last_r <- index fragment_seq (len fragment_seq - 1) ;;
  if String.eqb case (disorder_cases 0) || truthy (disorder_cases 1) then
    trim_back fragment_seq last_r (enumerate fragment_seq) (sites fragment)
  else if String.eqb case (disorder_cases 2) then
    trim_front fragment_seq first_r (enumerate fragment_seq) (sites fragment)
  else Ok (sites fragment).

Section Clash.

(** [vdW_radii_tsai_1999], keyed by element symbol. *)
Variable vdW_radii_tsai_1999 : string -> option float.

Definition radius (element : string) : res float :=
  match vdW_radii_tsai_1999 element with
  | Some r => Ok r
  | None => Raise KeyError
  end.

Variable max_clash : Z.
Variable tolerance : float.

(** The test of one pair, in the order of the loop body. *)
Definition pair_step (s1 s2 : string * vec3) (num_clashes : Z)
    : res (flow value Z) :=
  let distance := calculate_distance (snd s1) (snd s2) in
  vdw_radius1 <- radius (fst s1) ;;
  vdw_radius2 <- radius (fst s2) ;;
  if num_clashes >? max_clash then Ok (Returned (PyBool true))
  else if (distance <? vdw_radius1 + vdw_radius2 + tolerance)%float
       then Ok (Running (num_clashes + 1))
       else Ok (Running num_clashes).

Fixpoint inner_loop (s1 : string * vec3) (frag : list (string * vec3))
    (num_clashes : Z) : res (flow value Z) :=
  match frag with
  | [] => Ok (Running num_clashes)
  | s2 :: frag' =>
      st <- pair_step s1 s2 num_clashes ;;
      match st with
      | Returned r => Ok (Returned r)
      | Running n => inner_loop s1 frag' n
      end
  end.

Fixpoint outer_loop (parent frag : list (string * vec3)) (num_clashes : Z)
    : res (flow value Z) :=
  match parent with
  | [] => Ok (Running num_clashes)
  | s1 :: parent' =>
      st <- inner_loop s1 frag num_clashes ;;
      match st with
      | Returned r => Ok (Returned r)
      | Running n => outer_loop parent' frag n
      end
  end.

(** The first component of the pair that [count_clashes] returns; the
    second is [fragment] itself. *)
Definition count_clashes (fragment parent : list atom) (case : string)
    : res (value * list atom) :=
  frag <- trim_fragment fragment case ;;
  st <- outer_loop (sites parent) frag 0 ;;
  match st with
  | Returned r => Ok (r, fragment)
  | Running num_clashes => Ok (PyInt num_clashes, fragment)
  end.

End Clash.

(** *** [psurgeon] *)

(** [idp_struc]: one donor conformer, or the tuple (N-IDR, C-IDR). *)
Inductive donor : Type :=
| One (idr : list atom)
| Both (nidr cidr : list atom).

Definition set_resSeq (a : atom) (n : Z) : atom :=
  Atom (col_serial a) (col_name a) (col_element a) (col_resName a)
       n (col_chainID a) (col_segid a) (cols_coords a).

(** Rows leave the end of [arr] one by one, until the residue number read
    at [j - 1] differs from the one at [j]; [seq] is the column of the
    array as it was before the loop. *)
Fixpoint drop_last_residue (seq : list Z) (steps : list (Z * Z))
    (arr : list atom) : res (list atom) :=
  match steps with
  | [] => Ok arr
  | (i, _) :: steps' =>
      let j := len seq - 1 - i in
      curr <- index seq j ;;
      prev <- index seq (j - 1) ;;
      let arr' := but_last arr in
      if negb (prev =? curr) then Ok arr'
      else drop_last_residue seq steps' arr'
  end.

(** Rows leave the front of [arr], until the residue number read at
    [i + 1] differs from the one at [i]. *)
Fixpoint drop_first_residue (seq : list Z) (steps : list (Z * Z))
    (arr : list atom) : res (list atom) :=
  match steps with
  | [] => Ok arr
  | (i, _) :: steps' =>
      curr <- index seq i ;;
      next <- index seq (i + 1) ;;
      let arr' := but_first arr in
      if negb (next =? curr) then Ok arr'
      else drop_first_residue seq steps' arr'
  end.

(** The same loop in the Break-IDR branch, where a failed read of
    [idr_seq[i + 1]] skips the step. *)
Fixpoint drop_first_residue_try (seq : list Z) (steps : list (Z * Z))
    (arr : list atom) : res (list atom) :=
  match steps with
  | [] => Ok arr
  | (i, seq_i) :: steps' =>
      match index seq (i + 1) with
      | Raise IndexError => drop_first_residue_try seq steps' arr
      | Raise e => Raise e
      | Ok next =>
          let arr' := but_first arr in
          if negb (next =? seq_i) then Ok arr'
          else drop_first_residue_try seq steps' arr'
      end
  end.

(** The loop over the folded rows in the Break-IDR branch: rows numbered
    [actual_lower] or [actual_upper] are left out, and the index of the
    first of them is kept as [insert_idx]. *)
Fixpoint split_at_break (actual_lower actual_upper : Z)
    (rows : list (Z * atom)) (insert_idx : option Z)
    (fld_data_list : list atom) : option Z * list atom :=
  match rows with
  | [] => (insert_idx, fld_data_list)
  | (i, row) :: rows' =>
      let seq := col_resSeq row in
      if (seq =? actual_lower) || (seq =? actual_upper) then
        split_at_break actual_lower actual_upper rows'
          (match insert_idx with None => Some i | Some k => Some k end)
          fld_data_list
      else
        split_at_break actual_lower actual_upper rows' insert_idx
          (fld_data_list ++ [row])
  end.

(** [lst.insert(k, x)] for [k >= 0]. *)
Definition list_insert {A : Type} (lst : list A) (k : Z) (x : A) : list A :=
  firstn (Z.to_nat k) lst ++ x :: skipn (Z.to_nat k) lst.

(** The loop that renumbers the rows of the fragment and inserts them. *)
Fixpoint insert_rows (actual_lower : Z) (insert_idx : option Z)
    (rows : list (Z * atom)) (fld_data_list : list atom) : res (list atom) :=
  match rows with
  | [] => Ok fld_data_list
  | (i, row) :: rows' =>
      let row' := set_resSeq row (col_resSeq row + actual_lower - 2) in
      match insert_idx with
      | None => Raise UnboundLocalError
      | Some k =>
          insert_rows actual_lower insert_idx rows'
            (list_insert fld_data_list (k + i) row')
      end
  end.

(** "Fix residue connectivity issue": row [i] takes [curr_residue], which
    grows by one when the next row had another residue number. The next
    row is read before it is written, so the comparison sees the numbers
    the fragment came with. *)
Fixpoint renumber (curr_residue : Z) (rows : list atom) : list atom :=
  match rows with
  | [] => []
  | a :: rest =>
      set_resSeq a curr_residue ::
      match rest with
      | [] => []
      | b :: _ =>
          renumber (if negb (col_resSeq b =? col_resSeq a)
                    then curr_residue + 1 else curr_residue) rest
      end
  end.

(** The last statements: serials 1..N, chain and segment "A". *)
Fixpoint reserial (i : Z) (rows : list atom) : list atom :=
  match rows with
  | [] => []
  | a :: rest =>
      Atom i (col_name a) (col_element a) (col_resName a) (col_resSeq a)
           "A" "A" (cols_coords a) :: reserial (i + 1) rest
  end.

Definition seq_of (arr : list atom) : list Z := map col_resSeq arr.

Definition graft_n (idr fld : list atom) : res (list atom) :=
  idr' <- drop_last_residue (seq_of idr) (enumerate (seq_of idr)) idr ;;
  fld' <- drop_first_residue (seq_of fld) (enumerate (seq_of fld)) fld ;;
  Ok (idr' ++ fld').

Definition graft_c (fld idr : list atom) : res (list atom) :=
  fld' <- drop_last_residue (seq_of fld) (enumerate (seq_of fld)) fld ;;
  idr' <- drop_first_residue (seq_of idr) (enumerate (seq_of idr)) idr ;;
  last_residue_fld <- index (seq_of fld') (-1) ;;
  Ok (fld' ++ renumber (last_residue_fld + 1) idr').

Definition graft_break (idr fld : list atom) (ranges : Z * Z)
    : res (list atom) :=
  let lower := fst ranges in
  let upper := snd ranges in
  idr' <- drop_first_residue_try (seq_of idr) (enumerate (seq_of idr)) idr ;;
  first_fld_seq <- index (seq_of fld) 0 ;;
  let actual_lower := first_fld_seq + lower - 1 in
  let actual_upper := first_fld_seq + upper in
  let '(insert_idx, fld_data_list) :=
    split_at_break actual_lower actual_upper (enumerate fld) None [] in
  new_struc <- insert_rows actual_lower insert_idx (enumerate idr')
                 fld_data_list ;;
  match new_struc with
  | [] => Raise IndexError
  | _ => Ok new_struc
  end.

(** [psurgeon] on the arrays read from the paths it is given. A branch
    that reads a name the donor did not bind ([idr_seq] for a tuple,
    [nidr] for a single conformer) or no branch at all ([new_struc_arr]
    for an unknown case) ends in [UnboundLocalError]. *)
Definition psurgeon (idp_struc : donor) (fld_struc : list atom)
    (case : string) (ranges : Z * Z) : res (list atom) :=
  new_struc_arr <-
    (if String.eqb case (disorder_cases 0) then
       match idp_struc with
       | One idr => graft_n idr fld_struc
       | Both _ _ => Raise UnboundLocalError
       end
     else if String.eqb case (disorder_cases 1) then
       match idp_struc with
       | One idr => graft_break idr fld_struc ranges
       | Both _ _ => Raise UnboundLocalError
       end
     else if String.eqb case (disorder_cases 2) then
       match idp_struc with
       | One idr => graft_c fld_struc idr
       | Both _ _ => Raise UnboundLocalError
       end
     else if String.eqb case
               (String.append (disorder_cases 0) (disorder_cases 2)) then
       match idp_struc with
       | One _ => Raise UnboundLocalError
       | Both nidr cidr =>
           new_struc <- graft_n nidr fld_struc ;;
           graft_c new_struc cidr
       end
     else Raise UnboundLocalError) ;;
  Ok (reserial 1 new_struc_arr).

(** *** [calculate_angle] and [sliding_window] *)

Section Window.

Variable vdW_radii_tsai_1999 : string -> option float.
Variable np_arccos np_sin : float -> float.

(** Reading back a float written into a text cell of the array. *)
Variable cell : float -> float.

Variable max_clash : Z.
Variable tolerance : float.

Definition calculate_angle (a b c : vec3) : float :=
  let ab := vsub a b in
  let cb := vsub c b in
  let dot_product := dot ab cb in
  let mag_ab := norm ab in
  let mag_cb := norm cb in
  let cos_angle := (dot_product / (mag_ab * mag_cb))%float in
  np_arccos cos_angle.

(** The coordinates of the rows named [nm], in array order. *)
Definition named (nm : string) (arr : list atom) : list vec3 :=
  map cols_coords (filter (fun a => String.eqb (col_name a) nm) arr).

(** [idr_res]: the residue number of each row named "C". *)
Definition res_of_C (arr : list atom) : list Z :=
  map col_resSeq (filter (fun a => String.eqb (col_name a) "C") arr).

(** The condition of the [if]: the three geometric gates. *)
Definition gates (CN_dist CACN_ang CCA_dist : float) : bool :=
  ((1.32 <=? CN_dist) && (CN_dist <=? 1.56) &&
   (1.91 <=? CACN_ang) && (CACN_ang <=? 2.15) &&
   (2.2 <=? CCA_dist) && (CCA_dist <=? 2.7))%float.

(** What the search carries from one offset to the next, and from one
    candidate to the next: both arrays are rebound inside the loop, and
    [O_idx] is a local of the function that keeps its last value. *)
Record window : Type := Window {
  idr_arr : list atom;
  nterm_idr_arr : list atom;
  O_idx : option Z;
  matches : Z;
  written : list (Z * list atom)
}.

(** The loop over [p]: rows of [idr_arr] are copied up to the end of
    residue [term_residue], and one row leaves the front of the
    candidate for each. [idr_resseq] is the column read before any
    search; [idr_arr] is the array as the last junction left it. *)
Fixpoint take_rows (idr_resseq : list Z) (term_residue : Z)
    (steps : list (Z * Z)) (arr : list atom) (idr_list nterm : list atom)
    : res (list atom * list atom) :=
  match steps with
  | [] => Ok (idr_list, nterm)
  | (p, _) :: steps' =>
      next <- index idr_resseq (p + 1) ;;
      row <- index arr p ;;
      let idr_list' := idr_list ++ [row] in
      let nterm' := but_first nterm in
      if next =? term_residue + 1 then Ok (idr_list', nterm')
      else take_rows idr_resseq term_residue steps' arr idr_list' nterm'
  end.

(** The scan for the carbonyl O of [term_residue] and the amide H of the
    next residue; it stops at the first row of [term_residue + 2]. *)
Fixpoint find_O_H (term_residue : Z) (rows : list (Z * atom))
    (O H : option Z) : option Z * option Z :=
  match rows with
  | [] => (O, H)
  | (idx, a) :: rows' =>
      if col_resSeq a =? term_residue then
        find_O_H term_residue rows'
          (if String.eqb (col_name a) "O" then Some idx else O) H
      else if col_resSeq a =? term_residue + 1 then
        find_O_H term_residue rows' O
          (if String.eqb (col_name a) "H" then Some idx else H)
      else if col_resSeq a =? term_residue + 2 then (O, H)
      else find_O_H term_residue rows' O H
  end.

(** [length * np.sin(angle / 2) * (u / |u|) + length * np.sin(angle / 2)
    * (v / |v|)], with [angle] the angle between [u] and [v]. *)
Definition bisector (length : float) (u v : vec3) : vec3 :=
  let angle := np_arccos (dot u v / (norm u * norm v))%float in
  let k := (length * np_sin (angle / 2))%float in
  vadd (vscale k (V3 (vx u / norm u) (vy u / norm u) (vz u / norm u))%float)
       (vscale k (V3 (vx v / norm v) (vy v / norm v) (vz v / norm v))%float).

Definition set_xyz (a : atom) (v : vec3) : atom :=
  Atom (col_serial a) (col_name a) (col_element a) (col_resName a)
       (col_resSeq a) (col_chainID a) (col_segid a)
       (V3 (cell (vx v)) (cell (vy v)) (cell (vz v))).

(** [arr[k] = f(arr[k])] *)
Definition update_row (arr : list atom) (k : Z) (f : atom -> atom)
    : res (list atom) :=
  row <- index arr k ;;
  let k' := Z.to_nat (if k <? 0 then len arr + k else k) in
  Ok (firstn k' arr ++ f row :: skipn (S k') arr).

(** The body of the [if]: the junction at offset [i] of candidate
    [cand]. *)
Definition junction (idr_resseq idr_res : list Z)
    (idr_CA idr_O : list vec3) (cand i : Z) (curr_c next_n next_ca : vec3)
    (w : window) : res window :=
  term_residue <- index idr_res i ;;
  taken <- take_rows idr_resseq term_residue (enumerate idr_resseq)
             (idr_arr w) [] (nterm_idr_arr w) ;;
  let idr_list := fst taken in
  let nterm := snd taken in
  counted <- count_clashes vdW_radii_tsai_1999 max_clash tolerance
               idr_list nterm (disorder_cases 1) ;;
  let w1 := Window idr_list nterm (O_idx w) (matches w) (written w) in
  if type_is_int (fst counted) then
    let final_struc_arr := idr_list ++ nterm in
    let found := find_O_H term_residue (enumerate final_struc_arr)
                   (O_idx w) None in
    o <- index idr_O i ;;
    ca <- index idr_CA i ;;
    let CO_length := calculate_distance curr_c o in
    let new_O_xyz :=
      vsub curr_c (bisector CO_length (vsub ca curr_c) (vsub next_n curr_c)) in
    let new_H_xyz :=
      vsub next_n (bisector 1.0 (vsub curr_c next_n) (vsub next_ca next_n)) in
    match fst found with
    | None => Raise UnboundLocalError
    | Some O_i =>
        arr1 <- update_row final_struc_arr O_i (fun a => set_xyz a new_O_xyz) ;;
        arr2 <- match snd found with
                | Some H_i =>
                    if H_i >? 0
                    then update_row arr1 H_i (fun a => set_xyz a new_H_xyz)
                    else Ok arr1
                | None => Ok arr1
                end ;;
        Ok (Window idr_list nterm (Some O_i) (matches w + 1)
                   (written w ++ [(cand, arr2)]))
    end
  else Ok w1.

(** The loop over the offsets of one candidate. A failed read of
    [nterm_idr_N[i + 1]] or [nterm_idr_CA[i + 1]] ends it; the second
    component is the exception that left the function, if any. *)
Fixpoint offsets (idr_resseq idr_res : list Z) (idr_CA idr_O : list vec3)
    (nterm_idr_N nterm_idr_CA : list vec3) (cand : Z)
    (steps : list (Z * vec3)) (w : window) : window * option exn :=
  match steps with
  | [] => (w, None)
  | (i, curr_c) :: steps' =>
      match (next_n <- index nterm_idr_N (i + 1) ;;
             next_ca <- index nterm_idr_CA (i + 1) ;;
             Ok (next_n, next_ca)) with
      | Raise IndexError => (w, None)
      | Raise e => (w, Some e)
      | Ok (next_n, next_ca) =>
          let CN_dist := calculate_distance curr_c next_n in
          let CCA_dist := calculate_distance curr_c next_ca in
          match
            (ca <- index idr_CA i ;;
             let CACN_ang := calculate_angle ca curr_c next_n in
             if gates CN_dist CACN_ang CCA_dist
             then junction idr_resseq idr_res idr_CA idr_O cand i
                           curr_c next_n next_ca w
             else Ok w)
          with
          | Raise e => (w, Some e)
          | Ok w' =>
              offsets idr_resseq idr_res idr_CA idr_O
                      nterm_idr_N nterm_idr_CA cand steps' w'
          end
      end
  end.

(** The loop over the library. *)
Fixpoint candidates (idr_resseq idr_res : list Z)
    (idr_C idr_CA idr_O : list vec3) (lib : list (Z * list atom))
    (w : window) : window * option exn :=
  match lib with
  | [] => (w, None)
  | (cand, arr) :: lib' =>
      let w0 := Window (idr_arr w) arr (O_idx w) (matches w) (written w) in
      match offsets idr_resseq idr_res idr_CA idr_O
                    (named "N" arr) (named "CA" arr) cand
                    (enumerate idr_C) w0 with
      | (w', Some e) => (w', Some e)
      | (w', None) =>
          candidates idr_resseq idr_res idr_C idr_CA idr_O lib' w'
      end
  end.

(** [sliding_window]: the files written, and the count returned or the
    exception raised. A file is identified by the place of its candidate
    in the library. *)
Definition sliding_window (cterm_idr : list atom)
    (nterm_idr_lib : list (list atom)) : list (Z * list atom) * res Z :=
  let w0 := Window cterm_idr [] None 0 [] in
  match candidates (seq_of cterm_idr) (res_of_C cterm_idr)
                   (named "C" cterm_idr) (named "CA" cterm_idr)
                   (named "O" cterm_idr) (enumerate nterm_idr_lib) w0 with
  | (w, Some e) => (written w, Raise e)
  | (w, None) => (written w, Ok (matches w))
  end.

End Window.

(** *** [align_coords] *)

(** The dictionary [idr_term_idx]: the rows found for the keys "C", "N"
    and "CA". *)
Record term_idx : Type := TermIdx {
  idx_C : option Z;
  idx_N : option Z;
  idx_CA : option Z
}.

(** The loop of the N-IDR case, from the last row back: it ends on the
    first row numbered [last_seq - 2] that is none of the atoms looked
    for. [rows] are the rows with their indices [j], last row first. *)
Fixpoint scan_back (last_seq : Z) (rows : list (Z * atom)) (d : term_idx)
    : term_idx :=
  match rows with
  | [] => d
  | (j, a) :: rows' =>
      let seq := col_resSeq a in
      if (seq =? last_seq) && String.eqb (col_name a) "N" then
        scan_back last_seq rows' (TermIdx (idx_C d) (Some j) (idx_CA d))
      else if (seq =? last_seq) && String.eqb (col_name a) "CA" then
        scan_back last_seq rows' (TermIdx (idx_C d) (idx_N d) (Some j))
      else if (seq =? last_seq - 1) && String.eqb (col_name a) "C" then
        scan_back last_seq rows' (TermIdx (Some j) (idx_N d) (idx_CA d))
      else if seq =? last_seq - 2 then d
      else scan_back last_seq rows' d
  end.

(** The loop of the C-IDR case, from the first row on. *)
Fixpoint scan_front (first_seq : Z) (rows : list (Z * atom)) (d : term_idx)
    : term_idx :=
  match rows with
  | [] => d
  | (i, a) :: rows' =>
      let seq := col_resSeq a in
      if (seq =? first_seq + 1) && String.eqb (col_name a) "N" then
        scan_front first_seq rows' (TermIdx (idx_C d) (Some i) (idx_CA d))
      else if (seq =? first_seq + 1) && String.eqb (col_name a) "CA" then
        scan_front first_seq rows' (TermIdx (idx_C d) (idx_N d) (Some i))
      else if (seq =? first_seq) && String.eqb (col_name a) "C" then
        scan_front first_seq rows' (TermIdx (Some i) (idx_N d) (idx_CA d))
      else if seq =? first_seq + 2 then d
      else scan_front first_seq rows' d
  end.

(** [idr_term_idx] after the [if]: no other case fills it. *)
Definition idr_term_idx (sample : list atom) (case : string) : res term_idx :=
  first_seq <- index (seq_of sample) 0 ;;
  last_seq <- index (seq_of sample) (-1) ;;
  let empty := TermIdx None None None in
  Ok (if String.eqb case (disorder_cases 0) then
        scan_back last_seq (rev (enumerate sample)) empty
      else if String.eqb case (disorder_cases 2) then
        scan_front first_seq (enumerate sample) empty
      else empty).

(** Reading a key of the dictionary. *)
Definition lookup (entry : option Z) : res Z :=
  match entry with
  | Some i => Ok i
  | None => Raise KeyError
  end.

(** [idr_Cxyz], [idr_Nxyz] and [idr_CAxyz] as the rows of [idr_coords],
    with the index of the anchor C. *)
Definition anchor_rows (sample : list atom) (d : term_idx) : res (Z * mat3) :=
  iC <- lookup (idx_C d) ;;
  rC <- index sample iC ;;
  iN <- lookup (idx_N d) ;;
  rN <- index sample iN ;;
  iCA <- lookup (idx_CA d) ;;
  rCA <- index sample iCA ;;
  Ok (iC, M3 (cols_coords rC) (cols_coords rN) (cols_coords rCA)).

Section Align.

(** [np.linalg.svd] of an array of three rows of three: [(U, S, Vt)]. *)
Variable np_linalg_svd : mat3 -> mat3 * vec3 * mat3.

(** [round(x, 3)] of a [numpy.float64]. *)
Variable round3 : float -> float.

(** Reading back a float written into a text cell of the array. *)
Variable cell : float -> float.

Definition rotation_matrix (idr_coords target : mat3) : mat3 :=
  let centered_idr := centered idr_coords in
  let centered_fld := centered target in
  let covariance_matrix := matmul (transpose centered_idr) centered_fld in
  let '(U, _, Vt) := np_linalg_svd covariance_matrix in
  matmul U Vt.

(** [sample[:, cols_coords] = rotated_points.astype(str)] *)
Definition rotated_points (rotation : mat3) (sample : list atom) : list atom :=
  map (fun a => set_xyz cell a (vecmat (cols_coords a) rotation)) sample.

(** The body of the last loop, on one row. *)
Definition translated (translation_vector : vec3) (a : atom) : atom :=
  let coords := cols_coords a in
  set_xyz cell a
    (V3 (round3 (vx translation_vector + vx coords))
        (round3 (vy translation_vector + vy coords))
        (round3 (vz translation_vector + vz coords)))%float.

(** [align_coords]; [target] has the rows C, N, CA. *)
Definition align_coords (sample : list atom) (target : mat3) (case : string)
    : res (list atom) :=
  d <- idr_term_idx sample case ;;
  found <- anchor_rows sample d ;;
  let rotation := rotation_matrix (snd found) target in
  let rotated := rotated_points rotation sample in
  anchor <- index rotated (fst found) ;;
  let translation_vector := vsub (row0 target) (cols_coords anchor) in
  Ok (map (translated translation_vector) rotated).

End Align.

(** *** [tolerance_calculator] *)

(** [(max_clash, dist_tolerance)], or the exception of [int]. *)
Definition tolerance_calculator (tolerance : float)
    : PyFloat.conv + Z * float :=
  let tolerance :=
    if (1.0 <? tolerance)%float then 1.0%float
    else if (tolerance <? 0.0)%float then 0.0%float
    else tolerance in
  match PyFloat.py_int (tolerance * 80)%float with
  | PyFloat.Int max_clash => inr (max_clash, (tolerance * 1.25)%float)
  | e => inl e
  end.

End Ldrs.

(** ** [fldrs_helper.py] *)

Module Fldrs.

Import Ldrs.

(** [np.delete(arr, k, axis=0)] for one index. *)
Definition np_delete {A : Type} (arr : list A) (k : Z) : res (list A) :=
  let k' := if k <? 0 then len arr + k else k in
  if (k' <? 0) || (len arr <=? k') then Raise IndexError
  else Ok (firstn (Z.to_nat k') arr ++ skipn (S (Z.to_nat k')) arr).

(** N-IDR: the last residue of the fragment leaves the count. *)
Fixpoint trim_last_residue (fragment_seq : list Z) (steps : list (Z * Z))
    (frag : list (string * vec3)) : res (list (string * vec3)) :=
  match steps with
  | [] => Ok frag
  | (i, _) :: steps' =>
      let j := len fragment_seq - 1 - i in
      curr <- index fragment_seq j ;;
      prev <- index fragment_seq (j - 1) ;;
      frag' <- np_delete frag j ;;
      if negb (prev =? curr) then Ok frag'
      else trim_last_residue fragment_seq steps' frag'
  end.

(** C-IDR: row [i] of what is left is deleted at step [i]. *)
Fixpoint trim_first_residue (fragment_seq : list Z) (steps : list (Z * Z))
    (frag : list (string * vec3)) : res (list (string * vec3)) :=
  match steps with
  | [] => Ok frag
  | (i, seq) :: steps' =>
      let curr := seq in
      next <- index fragment_seq (i + 1) ;;
      frag' <- np_delete frag i ;;
      if negb (next =? curr) then Ok frag'
      else trim_first_residue fragment_seq steps' frag'
  end.

Definition trim_fragment (fragment : list atom) (case : string)
    : res (list (string * vec3)) :=
  let fragment_seq := map col_resSeq fragment in
  if String.eqb case (disorder_cases 0) then
    trim_last_residue fragment_seq (enumerate fragment_seq) (sites fragment)
  else if String.eqb case (disorder_cases 1) then Ok (sites fragment)
  else if String.eqb case (disorder_cases 2) then
    trim_first_residue fragment_seq (enumerate fragment_seq) (sites fragment)
  else Ok (sites fragment).

Section Clash.

Variable vdW_radii_tsai_1999 : string -> option float.
Variable max_clash : Z.
Variable tolerance : float.

Definition pair_step (s1 s2 : string * vec3) (num_clashes : Z)
    : res (flow value Z) :=
  let distance := calculate_distance (snd s1) (snd s2) in
  vdw_radius1 <- radius vdW_radii_tsai_1999 (fst s1) ;;
  vdw_radius2 <- radius vdW_radii_tsai_1999 (fst s2) ;;
  if num_clashes >=? max_clash then Ok (Returned (PyBool true))
  else if (distance <? vdw_radius1 + vdw_radius2 + tolerance)%float
       then Ok (Running (num_clashes + 1))
       else Ok (Running num_clashes).

Fixpoint inner_loop (s1 : string * vec3) (frag : list (string * vec3))
    (num_clashes : Z) : res (flow value Z) :=
  match frag with
  | [] => Ok (Running num_clashes)
  | s2 :: frag' =>
      st <- pair_step s1 s2 num_clashes ;;
      match st with
      | Returned r => Ok (Returned r)
      | Running n => inner_loop s1 frag' n
      end
  end.

Fixpoint outer_loop (parent frag : list (string * vec3)) (num_clashes : Z)
    : res (flow value Z) :=
  match parent with
  | [] => Ok (Running num_clashes)
  | s1 :: parent' =>
      st <- inner_loop s1 frag num_clashes ;;
      match st with
      | Returned r => Ok (Returned r)
      | Running n => outer_loop parent' frag n
      end
  end.

Definition count_clashes (parent fragment : list atom) (case : string)
    : res value :=
  frag <- trim_fragment fragment case ;;
  st <- outer_loop (sites parent) frag 0 ;;
  match st with
  | Returned r => Ok r
  | Running num_clashes => Ok (PyInt num_clashes)
  end.

(** *** [rotator] *)

Variable np_cos np_sin : float -> float.

(** Reading back a float that was written into a text cell of the
    structure array ([.astype(str)], then [.astype(float)]). *)
Variable cell : float -> float.

(** [random.uniform(0, 2 * np.pi)]: the value of the [k]-th draw. *)
Variable uniform : nat -> float.

(** The row the chain turns about: the last "N" for N-IDR, the first "C"
    for C-IDR; no other case binds [index]. *)
Fixpoint first_named (nm : string) (rows : list (Z * string)) : option Z :=
  match rows with
  | [] => None
  | (i, a) :: rows' =>
      if String.eqb a nm then Some i else first_named nm rows'
  end.

Definition pivot_index (atom_names : list string) (case : string) : res Z :=
  let found :=
    if String.eqb case (disorder_cases 0) then
      first_named "N" (rev (enumerate atom_names))
    else if String.eqb case (disorder_cases 2) then
      first_named "C" (enumerate atom_names)
    else None in
  match found with
  | Some i => Ok i
  | None => Raise UnboundLocalError
  end.

(** One row of [np.dot(rotation_matrix, coords.T).T]. *)
Definition rotate_z (angle : float) (v : vec3) : vec3 :=
  let c := np_cos angle in
  let s := np_sin angle in
  V3 (c * vx v + (- s) * vy v + 0 * vz v)%float
     (s * vx v + c * vy v + 0 * vz v)%float
     (0 * vx v + 0 * vy v + 1 * vz v)%float.

Definition set_coords (a : atom) (v : vec3) : atom :=
  Atom (col_serial a) (col_name a) (col_element a) (col_resName a)
       (col_resSeq a) (col_chainID a) (col_segid a) v.

Definition store (v : vec3) : vec3 :=
  V3 (cell (vx v)) (cell (vy v)) (cell (vz v)).

(** [rotator] on a structure, with the angle it drew. *)
Definition rotator (angle : float) (chain : list atom) (case : string)
    : res (list atom) :=
  index_ <- pivot_index (map col_name chain) case ;;
  row <- index chain index_ ;;
  let point_xyz := cols_coords row in
  Ok (map (fun a =>
             set_coords a
               (store (vadd (rotate_z angle (vsub (cols_coords a) point_xyz))
                            point_xyz)))
          chain).

(** *** [clash_and_rotate_helper] *)

(** The [while] loop; [draws] counts the calls of [rotator] so far. The
    loop runs at most [max_rotation] times, which is the fuel given. *)
Fixpoint rotate_loop (fuel : nat) (parent : list atom) (case : string)
    (max_rotation : Z) (n_clashes : value) (fragment : list atom)
    (counter : Z) (draws : nat) : res (value * list atom * nat) :=
  if eq_True n_clashes && (counter <=? max_rotation) then
    match fuel with
    | O => Ok (n_clashes, fragment, draws)
    | S fuel' =>
        fragment' <- rotator (uniform draws) fragment case ;;
        n_clashes' <- count_clashes parent fragment' case ;;
        rotate_loop fuel' parent case max_rotation n_clashes' fragment'
                    (counter + 1) (S draws)
    end
  else Ok (n_clashes, fragment, draws).

(** Returns [n_clashes], the structure [fragment[0]] and, in place of
    the path it was given, the number of rotations made. *)
Definition clash_and_rotate_helper (frag : list atom) (parent : list atom)
    (case : string) (max_rotation : Z) : res (value * list atom * nat) :=
  fragment <- rotator (uniform 0%nat) frag case ;;
  n_clashes <- count_clashes parent fragment case ;;
  rotate_loop (Z.to_nat max_rotation) parent case max_rotation
              n_clashes fragment 1 1%nat.

End Clash.

(** *** [tolerance_calculator] *)

(** [(max_rotation, max_clash, dist_tolerance)], or the exception of
    [int]. *)
Definition tolerance_calculator (tolerance : float)
    : PyFloat.conv + Z * Z * float :=
  let tolerance :=
    if (1.0 <? tolerance)%float then 1.0%float
    else if (tolerance <? 0.0)%float then 0.0%float
    else tolerance in
  match PyFloat.py_int (-1 * ((tolerance * 256) - 256))%float with
  | PyFloat.Int max_rotation =>
      let max_rotation :=
        if (0.9 <? tolerance)%float then 32 else max_rotation in
      match PyFloat.py_int (tolerance * 80)%float with
      | PyFloat.Int max_clash => inr (max_rotation, max_clash, tolerance)
      | e => inl e
      end
  | e => inl e
  end.

End Fldrs.

(** ** [libs/libparse.py] *)

Module Libparse.

(** [group_by] on data of a type [A] that comes with its [!=] (the
    negation of [eqb]) and its [isinstance(_, str)]: for a string the
    data are its characters, each a [str]. The groups are pairs of a
    datum and the bounds of the slice [slice(start, stop)] where it
    repeats. The loop state is [prev], [start], the datum of [current]
    and [groups]. *)
Fixpoint group_loop {A : Type} (eqb : A -> A -> bool)
    (steps : list (Z * A)) (prev : A) (start : Z) (current : A)
    (groups : list (A * (Z * Z))) (i : Z)
    : list (A * (Z * Z)) :=
  match steps with
  | [] => groups ++ [(current, (start, i + 1))]
  | (i', datum) :: steps' =>
      if negb (eqb datum prev)
      then group_loop eqb steps' datum i' datum
             (groups ++ [(current, (start, i'))]) i'
      else group_loop eqb steps' datum start current groups i'
  end.

(** The loop variable [i] is read after the loop: it is unbound when the
    loop never ran, but then [data[0]] has already raised. The three
    assertions close the function; the third, that [groups[0][1]] is a
    [slice], holds of every group the loop builds. *)
Definition group_by {A : Type} (eqb : A -> A -> bool)
    (isinstance_str : A -> bool) (data : list A)
    : res (list (A * (Z * Z))) :=
  prev <- index data 0 ;;
  let groups := group_loop eqb (enumerate data) prev 0 prev [] 0 in
  if len groups =? 0 then Raise AssertionError
  else
    first <- index groups 0 ;;
    if negb (isinstance_str (fst first)) then Raise AssertionError
    else Ok groups.

End Libparse.

(** * Reference counts and sample inputs *)

Module Samples.

Import Ldrs.

(** A radius table of the expected shape, for the worked inputs. *)
Definition radii (element : string) : option float :=
  if String.eqb element "C" then Some 1.7%float
  else if String.eqb element "N" then Some 1.625%float
  else if String.eqb element "O" then Some 1.48%float
  else if String.eqb element "H" then Some 1.0%float
  else None.

(** A backbone row; the element is the first letter of the name. *)
Definition bb (nm : string) (resSeq : Z) (x y z : float) : atom :=
  Atom 0 nm (String.substring 0 1 nm) "ALA" resSeq "A" "" (V3 x y z).

(** Two residues, the second without its CA. *)
(** Stand-ins for [has_string_formatters] and [contact_message]: a
    string has formatters when it holds "{}"; the contact message has
    none. *)
Definition find_braces (s : string) : bool :=
  0 <? Exceptions.count_braces s.
Definition contact : string := "Please contact the authors.".

Definition missing_CA : list atom :=
  [ bb "N" 1 0 0 0; bb "CA" 1 1.4 0 0; bb "C" 1 2.8 0 0;
    bb "N" 2 2.8 1.4 0; bb "C" 2 1.4 0 1.2 ].

(** One residue stretched to 3 between its atoms. *)
Definition stretched : list atom :=
  [ bb "N" 1 0 0 0; bb "CA" 1 3 0 0; bb "C" 1 6 0 0 ].

(** Four residues of one atom each, 10 apart along x. *)
Definition four_residues : list atom :=
  [ bb "CA" 1 0 0 0; bb "CA" 2 10 0 0; bb "CA" 3 20 0 0; bb "CA" 4 30 0 0 ].

(** One parent atom at distance 1 of the first atom of [four_residues],
    and a second one far from everything. *)
Definition near_parent : list atom := [ bb "CA" 9 1 0 0 ].
Definition near_far_parent : list atom :=
  [ bb "CA" 9 1 0 0; bb "CA" 10 0 90 0 ].

(** Two residues of one atom each; the first is at distance 1 of
    [near_parent]. *)
Definition two_residues : list atom :=
  [ bb "N" 1 0 0 0; bb "N" 2 50 0 0 ].

(** The draw of the angle 0.0, where [np.cos] is 1.0 and [np.sin] is
    0.0; the text cells hold the floats as they are. *)
Definition cos_at_zero (angle : float) : float := 1%float.
Definition sin_at_zero (angle : float) : float := 0%float.
Definition exact_cell (x : float) : float := x.
Definition draws_zero (k : nat) : float := 0%float.

(** Rows of one atom per residue, told apart by their residue name. *)
Definition row (resName : string) (resSeq : Z) : atom :=
  Atom 0 "CA" "C" resName resSeq "A" "" (V3 0 0 0).

(** A fragment numbered 1, 2 and a folded structure numbered 10, 11. *)
Definition idr_1_2 : list atom := [ row "IDR" 1; row "IDR" 2 ].
Definition fld_10_11 : list atom := [ row "FLD" 10; row "FLD" 11 ].

(** A fragment of three residues and a folded structure of six. *)
Definition idr_1_3 : list atom := [ row "IDR" 1; row "IDR" 2; row "IDR" 3 ].
Definition fld_1_6 : list atom :=
  [ row "FLD" 1; row "FLD" 2; row "FLD" 3;
    row "FLD" 4; row "FLD" 5; row "FLD" 6 ].

(** An N-side fragment numbered 0..2, a folded structure numbered 2..5
    and a C-side fragment numbered 1..3, each cut into the parts the
    surgeon tells apart. *)
Definition n_body : list atom := [ row "NDR" 1; row "NDR" 2 ].
Definition n_last : list atom := [ row "NDR" 3 ].
Definition f_first : list atom := [ row "FLD" 2 ].
Definition f_mid : list atom := [ row "FLD" 3; row "FLD" 4 ].
Definition f_last : list atom := [ row "FLD" 5 ].
Definition c_first : list atom := [ row "CDR" 1 ].
Definition c_tail : list atom :=
  [ row "CDR" 7; row "CDR" 7; row "CDR" 9 ].

(** Stand-ins for [np.arccos] and [np.sin] on the worked inputs: the
    first terms of their power series, within 1e-4 of the functions for
    the arguments met there (cosines near -0.5, half angles near 1). *)
Definition arccos_series (x : float) : float :=
  let x2 := (x * x)%float in
  (1.5707963267948966
   - x * (1 + x2 * (1 / 6 + x2 * (3 / 40 + x2 * (15 / 336
          + x2 * (105 / 3456))))))%float.

Definition sin_series (x : float) : float :=
  let x2 := (x * x)%float in
  (x * (1 - x2 * (1 / 6 - x2 * (1 / 120 - x2 * (1 / 5040
          - x2 * (1 / 362880))))))%float.

(** A row with all its columns. *)
Definition full (nm element : string) (resSeq : Z) (x y z : float) : atom :=
  Atom 0 nm element "GLY" resSeq "A" "" (V3 x y z).

(** Residue [k] of the C-side fragment, 10 further along x than the one
    before: N, CA, C, O. *)
Definition c_side_residue (k : Z) (x0 : float) : list atom :=
  [ full "N" "N" k (x0 + 2.5) 1 0; full "CA" "C" k (x0 + 1.5) 0 0;
    full "C" "C" k x0 0 0; full "O" "O" k x0 (-1.2) 0 ].

(** Residue [k] of a candidate, placed so that its N is 1.39 and its CA
    2.39 away from the C at [x0] of the C-side fragment, with the angle
    CA-C-N at 2.10 rad: the three gates hold. *)
Definition n_side_residue (k : Z) (x0 : float) : list atom :=
  [ full "N" "N" k (x0 - 0.7) 1.2 0; full "CA" "C" k (x0 - 2.0) 1.3 0;
    full "C" "C" k (x0 - 3.0) 2.4 0; full "O" "O" k (x0 - 3.0) 3.6 0 ].

Definition c_side : list atom :=
  c_side_residue 1 0 ++ c_side_residue 2 10 ++ c_side_residue 3 20.

(** Residues 2 and 3 of the candidate fit the C of residues 1 and 2 of
    [c_side]: the gates hold at offsets 0 and 1. *)
Definition n_side : list atom :=
  n_side_residue 1 (-10) ++ n_side_residue 2 0 ++ n_side_residue 3 10.





End Samples.

(** The count the specification speaks of: the pairs (parent atom,
    fragment atom) whose distance is below the sum of the two radii and
    the tolerance. *)
Module Reference.

Section Pairs.

Variable vdW_radii_tsai_1999 : string -> option float.
Variable tolerance : float.

Definition clashing (s1 s2 : string * vec3) : bool :=
  match vdW_radii_tsai_1999 (fst s1), vdW_radii_tsai_1999 (fst s2) with
  | Some r1, Some r2 =>
      (calculate_distance (snd s1) (snd s2) <? r1 + r2 + tolerance)%float
  | _, _ => false
  end.

Fixpoint clashes_with (s1 : string * vec3) (frag : list (string * vec3)) : Z :=
  match frag with
  | [] => 0
  | s2 :: frag' =>
      (if clashing s1 s2 then 1 else 0) + clashes_with s1 frag'
  end.

Fixpoint clashing_pairs (parent frag : list (string * vec3)) : Z :=
  match parent with
  | [] => 0
  | s1 :: parent' => clashes_with s1 frag + clashing_pairs parent' frag
  end.

Definition known (l : list (string * vec3)) : Prop :=
  Forall (fun s => vdW_radii_tsai_1999 (fst s) <> None) l.

End Pairs.

(** The words of the specification about the grafted array. *)

(** Residue numbers step by exactly one at every residue boundary: two
    rows that follow each other carry the same number or the next one. *)
Fixpoint contiguous (l : list Z) : Prop :=
  match l with
  | a :: (b :: _) as rest => (b = a \/ b = a + 1) /\ contiguous rest
  | _ => True
  end.

Fixpoint contiguousb (l : list Z) : bool :=
  match l with
  | a :: (b :: _) as rest => ((b =? a) || (b =? a + 1)) && contiguousb rest
  | _ => true
  end.

(** The numbers [out] follow the residue boundaries of the numbers
    [src], row by row: there are as many, and from one row to the next
    the number stays where the source number stays and grows by exactly
    one where the source number changes. *)
Fixpoint steps_with (src out : list Z) : Prop :=
  match src, out with
  | [], [] => True
  | a :: src', x :: out' =>
      match src', out' with
      | [], [] => True
      | b :: _, y :: _ =>
          (if b =? a then y = x else y = x + 1) /\ steps_with src' out'
      | _, _ => False
      end
  | _, _ => False
  end.

(** Rows that came numbered [src] are numbered anew from [start]. *)
Definition renumbered (start : Z) (src out : list Z) : Prop :=
  hd_error out = Some start /\ steps_with src out.

(** What a row keeps through the surgeon: name, element, residue name
    and coordinates. *)
Definition core (a : atom) : string * string * string * vec3 :=
  (col_name a, col_element a, col_resName a, cols_coords a).

(** All the rows of [l] belong to one residue, numbered [n]. *)
Definition one_residue (n : Z) (l : list atom) : Prop :=
  l <> [] /\ Forall (fun a => col_resSeq a = n) l.

(** The two residues next to the break. *)
Definition at_break (lo up : Z) (a : atom) : bool :=
  (col_resSeq a =? lo) || (col_resSeq a =? up).

(** The folded rows before the first row of a residue next to the
    break, and the rows after it that belong to neither. *)
Fixpoint rows_before (lo up : Z) (fld : list atom) : list atom :=
  match fld with
  | [] => []
  | a :: fld' => if at_break lo up a then [] else a :: rows_before lo up fld'
  end.

Fixpoint rows_after (lo up : Z) (fld : list atom) : list atom :=
  match fld with
  | [] => []
  | a :: fld' =>
      if at_break lo up a
      then filter (fun b => negb (at_break lo up b)) fld'
      else rows_after lo up fld'
  end.

(** A row with its residue number moved by [k]. *)
Definition shift (k : Z) (a : atom) : atom :=
  Ldrs.set_resSeq a (col_resSeq a + k).

(** A group of [consecutive_grouper] is a run of consecutive integers,
    at least one. *)
Definition is_run (g : list Z) : Prop :=
  exists a n, g = range_from (S n) a 1.

(** In [sliding_window], how far the count of matches is ahead of the
    files written. *)
Definition lead (w : Ldrs.window) : Z :=
  Ldrs.matches w - len (Ldrs.written w).

(** A candidate with at most one N, or at most one CA, has no residue
    to join at offset 0: its scan ends before any gate is tested. *)
Definition too_short (cand : list atom) : Prop :=
  (List.length (Ldrs.named "N" cand) <= 1)%nat \/
  (List.length (Ldrs.named "CA" cand) <= 1)%nat.

(** The words of the specification about the aligned anchor. *)










(** The words of [group_by]'s docstring. *)

(** The data that a list of groups spells: each datum repeated over the
    length of its slice. *)
Definition spell {A : Type} (groups : list (A * (Z * Z))) : list A :=
  List.concat
    (map (fun g => repeat (fst g) (Z.to_nat (snd (snd g) - fst (snd g))))
         groups).

(** The slices follow each other from [s] to [e], none empty. *)
Fixpoint chained {A : Type} (s : Z) (groups : list (A * (Z * Z))) (e : Z)
    : Prop :=
  match groups with
  | [] => s = e
  | (_, (a, b)) :: groups' => a = s /\ a < b /\ chained b groups' e
  end.

(** No two neighbours are equal. *)
Fixpoint neighbours_differ {A : Type} (l : list A) : Prop :=
  match l with
  | x :: (y :: _) as rest => x <> y /\ neighbours_differ rest
  | _ => True
  end.

End Reference.

(** * Properties *)

(** ** Comparisons of binary64 numbers *)



(** ** Rounding in binary64 *)

Module FloatFacts.

Import Reference.

(** *** The number of binary digits *)



(** *** Shifting right with a round bit and a sticky bit *)




(** *** Rounding an exact value to binary64 *)











(** *** Sums and differences of binary64 numbers *)








(** *** Coordinates of moderate size *)




(** *** The translation back to the target *)







End FloatFacts.

(** ** [break_check] *)

Module BreakCheckFacts.

Import Ldrs.

Import Samples.

Section Facts.

Variable has_string_formatters : string -> bool.
Variable contact_message : string.
Variable aa3to1_get : string -> option string.

Local Abbreviation backbone_distances :=
  (Ldrs.backbone_distances has_string_formatters contact_message).
Local Abbreviation break_check :=
  (Ldrs.break_check has_string_formatters contact_message aa3to1_get).


Lemma some_distance_above (d : list float) :
  Exists (fun x => (2.1 <? x)%float = true) d ->
  existsb (fun dist => (2.1 <? dist)%float) d = true.
Proof.
  intros H. apply existsb_exists. apply Exists_exists in H.
  destruct H as (x & Hin & Hx). exists x. split; assumption.
Qed.

Lemma whole_indices_from_nil (d : list float) (i : Z) :
  Forall (fun x => (x <? 2.1)%float = false) d ->
  filter (fun p : Z * float => (snd p <? 2.1)%float) (enumerate_from i d) = [].
Proof.
  intros H. revert i.
  induction H as [ | x d Hx _ IH]; intros i; simpl.
  - reflexivity.
  - rewrite Hx. apply IH.
Qed.


(** C10. When some consecutive distance is above 2.1 and none is below
    2.1, the list of contiguous indices is empty, [consecutive_grouper]
    reads the first element of an empty list and [break_check] leaves
    with [IndexError] instead of returning a list. *)
Theorem break_check_no_contiguous_index (data : list atom) (d : list float) :
  backbone_distances data = Ok d ->
  Exists (fun x => (2.1 <? x)%float = true) d ->
  Forall (fun x => (x <? 2.1)%float = false) d ->
  break_check data = Raise IndexError.
Proof.
  intros Hd Hex Hnone. unfold Ldrs.break_check. rewrite Hd. simpl.
  rewrite (some_distance_above d Hex).
  unfold whole_indices, enumerate.
  rewrite (whole_indices_from_nil d 0 Hnone). reflexivity.
Qed.

(** The mismatch is caught when the CA rows are neither as many as the N
    rows nor exactly one: the code goes on to raise. *)
Lemma backbone_coords_mismatch (n ca c : list vec3) :
  List.length ca <> List.length n -> List.length ca <> 1%nat ->
  exists e,
    backbone_coords has_string_formatters contact_message n ca c = Raise e.
Proof.
  intros Hne H1. unfold backbone_coords, assign_strided.
  rewrite Nat.eqb_refl. simpl.
  destruct (Nat.eqb (List.length ca) (List.length n)) eqn:E.
  - apply Nat.eqb_eq in E. contradiction.
  - destruct ca as [ | r [ | r' ca']]; simpl; try (eexists; reflexivity).
    exfalso. apply H1. reflexivity.
Qed.

End Facts.

(** C9. In [missing_CA], two residues of which the second has no CA, the
    counts of N, CA and C rows are 2, 1 and 2, and [break_check] raises
    nothing: the one CA row is repeated for both residues and the
    chain is reported as having no break. *)
Theorem break_check_missing_CA (has_string_formatters : string -> bool)
    (contact_message : string) (aa3to1_get : string -> option string) :
  List.length (filter (fun a => String.eqb (col_name a) "N") missing_CA) = 2%nat /\
  List.length (filter (fun a => String.eqb (col_name a) "CA") missing_CA) = 1%nat /\
  List.length (filter (fun a => String.eqb (col_name a) "C") missing_CA) = 2%nat /\
  break_check has_string_formatters contact_message aa3to1_get missing_CA
  = Ok None.
Proof.
  repeat split; vm_compute; reflexivity.
Qed.


Lemma break_check_no_contiguous_index_witness :
  break_check find_braces contact (fun _ => Some "A") stretched
  = Raise IndexError.
Proof.
  apply (break_check_no_contiguous_index find_braces contact
           (fun _ => Some "A") stretched [3; 3]%float).
  - vm_compute. reflexivity.
  - apply Exists_cons_hd. vm_compute. reflexivity.
  - repeat constructor.
Defined.

End BreakCheckFacts.

(** ** [count_clashes] *)

Module ClashFacts.

Import Ldrs Samples Reference.

Section Budget.

Variable vdW : string -> option float.
Variable max_clash : Z.
Variable tolerance : float.

Lemma clashes_with_nonneg (s1 : string * vec3) (frag : list (string * vec3)) :
  0 <= clashes_with vdW tolerance s1 frag.
Proof.
  induction frag as [ | s2 frag IH]; simpl.
  - lia.
  - destruct (clashing vdW tolerance s1 s2); lia.
Qed.

Lemma clashing_pairs_nonneg (parent frag : list (string * vec3)) :
  0 <= clashing_pairs vdW tolerance parent frag.
Proof.
  induction parent as [ | s1 parent IH]; simpl.
  - lia.
  - pose proof (clashes_with_nonneg s1 frag). lia.
Qed.

Lemma pair_step_within (s1 s2 : string * vec3) (num : Z) :
  vdW (fst s1) <> None -> vdW (fst s2) <> None -> num <= max_clash ->
  pair_step vdW max_clash tolerance s1 s2 num
  = Ok (Running (num + (if clashing vdW tolerance s1 s2 then 1 else 0))).
Proof.
  intros H1 H2 Hle. unfold pair_step, radius, clashing.
  destruct (vdW (fst s1)) as [r1 | ]; [ | contradiction].
  destruct (vdW (fst s2)) as [r2 | ]; [ | contradiction].
  simpl.
  assert (E : (num >? max_clash) = false) by lia.
  rewrite E.
  destruct (calculate_distance (snd s1) (snd s2) <? r1 + r2 + tolerance)%float.
  - reflexivity.
  - rewrite Z.add_0_r. reflexivity.
Qed.

Lemma inner_loop_within (s1 : string * vec3) (frag : list (string * vec3)) :
  vdW (fst s1) <> None -> known vdW frag ->
  forall num,
    num + clashes_with vdW tolerance s1 frag <= max_clash ->
    inner_loop vdW max_clash tolerance s1 frag num
    = Ok (Running (num + clashes_with vdW tolerance s1 frag)).
Proof.
  intros H1 Hk.
  induction Hk as [ | s2 frag H2 _ IH]; intros num Hle; simpl in *.
  - rewrite Z.add_0_r. reflexivity.
  - pose proof (clashes_with_nonneg s1 frag) as Hpos.
    rewrite pair_step_within; try assumption.
    + simpl. rewrite IH by lia. f_equal. f_equal. lia.
    + destruct (clashing vdW tolerance s1 s2); lia.
Qed.

Lemma outer_loop_within (parent frag : list (string * vec3)) :
  known vdW parent -> known vdW frag ->
  forall num,
    num + clashing_pairs vdW tolerance parent frag <= max_clash ->
    outer_loop vdW max_clash tolerance parent frag num
    = Ok (Running (num + clashing_pairs vdW tolerance parent frag)).
Proof.
  intros Hp Hf.
  induction Hp as [ | s1 parent H1 _ IH]; intros num Hle; simpl in *.
  - rewrite Z.add_0_r. reflexivity.
  - pose proof (clashing_pairs_nonneg parent frag) as Hpos.
    rewrite inner_loop_within by (assumption || lia).
    simpl. rewrite IH by lia. f_equal. f_equal. lia.
Qed.

(** The half of the early-exit contract that the loop keeps: a total
    within the budget is returned as the exact count. *)
Lemma count_clashes_within_budget (fragment parent : list atom)
    (case : string) (frag : list (string * vec3)) :
  trim_fragment fragment case = Ok frag ->
  known vdW (sites parent) -> known vdW frag ->
  clashing_pairs vdW tolerance (sites parent) frag <= max_clash ->
  count_clashes vdW max_clash tolerance fragment parent case
  = Ok (PyInt (clashing_pairs vdW tolerance (sites parent) frag), fragment).
Proof.
  intros Ht Hp Hf Hle. unfold count_clashes. rewrite Ht. simpl.
  rewrite outer_loop_within by (assumption || lia). reflexivity.
Qed.

End Budget.

(** The first branch of the trimming is taken whatever the case is. *)
Lemma trim_fragment_any_case (fragment : list atom) (case : string) :
  trim_fragment fragment case = trim_fragment fragment (disorder_cases 0).
Proof.
  unfold trim_fragment.
  replace (truthy (disorder_cases 1)) with true by reflexivity.
  rewrite !orb_true_r. reflexivity.
Qed.

(** C1. With [max_clash = 0], one parent atom and a fragment of which
    one atom is left after trimming, the only pair clashes: the running
    count passes the budget on the last pair, no later pair tests it, and
    [count_clashes] returns the integer 1, not [True]. In
    [fldrs_helper.py] the test is [>=]: with [max_clash = 1] and one
    clashing pair followed by a pair that does not clash, it returns
    [True] although the total, 1, does not exceed the budget. *)
Theorem count_clashes_last_pair_over_budget :
  clashing_pairs radii 0.4 (sites near_parent)
    [("C", V3 0 0 0)] = 1 /\
  trim_fragment four_residues (disorder_cases 0) = Ok [("C", V3 0 0 0)] /\
  count_clashes radii 0 0.4 four_residues near_parent (disorder_cases 0)
  = Ok (PyInt 1, four_residues) /\
  clashing_pairs radii 0.4 (sites near_far_parent) (sites four_residues) = 1 /\
  Fldrs.count_clashes radii 1 0.4 near_far_parent four_residues
    (disorder_cases 1) = Ok (PyBool true).
Proof.
  repeat split; vm_compute; reflexivity.
Qed.

(** C3. In the C-terminal case the fragment [four_residues] loses its
    three trailing residues and keeps the leading one, exactly as in the
    N-terminal case: no row is stripped from the front. *)
Theorem trim_fragment_C_IDR_strips_the_end :
  trim_fragment four_residues "C-IDR" = Ok [("C", V3 0 0 0)] /\
  trim_fragment four_residues "C-IDR" = trim_fragment four_residues "N-IDR".
Proof.
  split; vm_compute; reflexivity.
Qed.

End ClashFacts.

(** ** [clash_and_rotate_helper] *)

Module RotateFacts.

Import Ldrs Fldrs Samples.

Section Loop.

Variable vdW : string -> option float.
Variable max_clash : Z.
Variable tolerance : float.
Variable np_cos np_sin cell : float -> float.
Variable uniform : nat -> float.

Local Abbreviation rotator := (Fldrs.rotator np_cos np_sin cell).
Local Abbreviation count_clashes := (Fldrs.count_clashes vdW max_clash tolerance).
Local Abbreviation helper :=
  (clash_and_rotate_helper vdW max_clash tolerance np_cos np_sin cell uniform).

(** X11. When the first orientation is counted as an integer other
    than 1, [clash_and_rotate_helper] returns that count and the
    fragment after this one rotation. *)
Lemma helper_stops_on_count (frag parent f1 : list atom) (case : string)
    (max_rotation n : Z) :
  rotator (uniform 0%nat) frag case = Ok f1 ->
  count_clashes parent f1 case = Ok (PyInt n) ->
  n <> 1 ->
  helper frag parent case max_rotation = Ok (PyInt n, f1, 1%nat).
Proof.
  intros Hr Hc Hn. unfold clash_and_rotate_helper.
  rewrite Hr. simpl. rewrite Hc. simpl.
  assert (E : (n =? 1) = false) by lia.
  destruct (Z.to_nat max_rotation); simpl; rewrite E; reflexivity.
Qed.

(** A count of exactly 1 is taken for [True]: the fragment is rotated
    and counted again. *)
Lemma helper_goes_on_after_one (frag parent f1 : list atom) (case : string)
    (max_rotation : Z) :
  rotator (uniform 0%nat) frag case = Ok f1 ->
  count_clashes parent f1 case = Ok (PyInt 1) ->
  1 <= max_rotation ->
  helper frag parent case max_rotation
  = (f2 <- rotator (uniform 1%nat) f1 case ;;
     n2 <- count_clashes parent f2 case ;;
     rotate_loop vdW max_clash tolerance np_cos np_sin cell uniform
       (Nat.pred (Z.to_nat max_rotation)) parent case max_rotation
       n2 f2 2 2%nat).
Proof.
  intros Hr Hc Hm. unfold clash_and_rotate_helper.
  rewrite Hr. simpl. rewrite Hc. simpl.
  destruct (Z.to_nat max_rotation) as [ | k] eqn:E; [lia | ].
  simpl. assert (E1 : (1 <=? max_rotation) = true) by lia.
  rewrite E1. reflexivity.
Qed.

(** The fuel of [clash_and_rotate_helper] is enough: the loop ends on
    its own condition, and more fuel changes nothing. *)
Lemma rotate_loop_enough_fuel (parent : list atom) (case : string)
    (max_rotation : Z) (fuel : nat) :
  forall (n : value) (fragment : list atom) (counter : Z) (draws : nat),
    (Z.to_nat (max_rotation - counter + 1) <= fuel)%nat ->
    rotate_loop vdW max_clash tolerance np_cos np_sin cell uniform
      (S fuel) parent case max_rotation n fragment counter draws
    = rotate_loop vdW max_clash tolerance np_cos np_sin cell uniform
        fuel parent case max_rotation n fragment counter draws.
Proof.
  induction fuel as [ | fuel IH]; intros n fragment counter draws Hfuel.
  - cbn [rotate_loop].
    destruct (counter <=? max_rotation) eqn:E.
    + apply Z.leb_le in E. lia.
    + rewrite andb_false_r. reflexivity.
  - cbn [rotate_loop] in *.
    destruct (eq_True n && (counter <=? max_rotation)) eqn:E;
      [ | reflexivity].
    apply andb_true_iff in E. destruct E as [_ E]. apply Z.leb_le in E.
    destruct (rotator (uniform draws) fragment case) as [f' | e];
      [ | reflexivity].
    cbn [bind].
    destruct (count_clashes parent f' case) as [n' | e]; [ | reflexivity].
    cbn [bind]. apply IH. lia.
Qed.

End Loop.

(** C7. The first orientation of [two_residues] against [near_parent]
    has exactly one clash, well within the budget of 5: it is accepted by
    the clash check. The loop still rotates the fragment three more
    times, the whole of [max_rotation = 3], and returns after four
    rotations. *)
Theorem helper_rotates_after_accepted_orientation :
  (f1 <- Fldrs.rotator cos_at_zero sin_at_zero exact_cell
           (draws_zero 0%nat) two_residues (disorder_cases 0) ;;
   Fldrs.count_clashes radii 5 0.4 near_parent f1 (disorder_cases 0))
  = Ok (PyInt 1) /\
  clash_and_rotate_helper radii 5 0.4 cos_at_zero sin_at_zero exact_cell
    draws_zero two_residues near_parent (disorder_cases 0) 3
  = Ok (PyInt 1, two_residues, 4%nat).
Proof.
  split; vm_compute; reflexivity.
Qed.

End RotateFacts.

(** ** [psurgeon] *)

Module SurgeonFacts.

Import Ldrs Samples Reference.

(** *** Reading a list by index *)

Lemma index_middle {A : Type} (l1 l2 : list A) (a : A) (i : Z) :
  i = len l1 -> index (l1 ++ a :: l2) i = Ok a.
Proof.
  intros ->. unfold index, len.
  assert (E : (Z.of_nat (List.length l1) <? 0) = false)
    by (apply Z.ltb_ge; lia).
  rewrite E, E, Nat2Z.id.
  rewrite nth_error_app2 by lia. rewrite Nat.sub_diag. reflexivity.
Qed.

Lemma index_last {A : Type} (l : list A) (a : A) :
  index (l ++ [a]) (-1) = Ok a.
Proof.
  unfold index, len. rewrite length_app. simpl.
  replace (Z.of_nat (List.length l + 1) + -1) with (Z.of_nat (List.length l))
    by lia.
  assert (E : (Z.of_nat (List.length l) <? 0) = false)
    by (apply Z.ltb_ge; lia).
  rewrite E, Nat2Z.id.
  rewrite nth_error_app2 by lia. rewrite Nat.sub_diag. reflexivity.
Qed.

Lemma split_repeat {A : Type} (m : A) (i k : nat) :
  (i < k)%nat -> repeat m k = repeat m i ++ m :: repeat m (k - S i).
Proof.
  intros H. replace k with (i + S (k - S i))%nat at 1 by lia.
  rewrite repeat_app. reflexivity.
Qed.

(** Inside a run of [k] equal numbers that follows [l1]. *)
Lemma index_in_run (l1 l2 : list Z) (m : Z) (k : nat) (i : Z) :
  len l1 <= i < len l1 + Z.of_nat k ->
  index (l1 ++ repeat m k ++ l2) i = Ok m.
Proof.
  intros H. unfold len in H.
  rewrite (split_repeat m (Z.to_nat (i - Z.of_nat (List.length l1))) k) by lia.
  rewrite <- app_assoc. simpl. rewrite app_assoc.
  apply index_middle. unfold len.
  rewrite length_app, repeat_length. lia.
Qed.

Lemma seq_of_app (l1 l2 : list atom) :
  seq_of (l1 ++ l2) = seq_of l1 ++ seq_of l2.
Proof. apply map_app. Qed.

Lemma seq_of_one_residue (n : Z) (l : list atom) :
  Forall (fun a => col_resSeq a = n) l ->
  seq_of l = repeat n (List.length l).
Proof.
  induction 1 as [ | a l Ha _ IH]; simpl.
  - reflexivity.
  - rewrite Ha, IH. reflexivity.
Qed.

(** A list whose last element, read with a default, is not the default
    has a last element. *)
Lemma last_differs {A : Type} (l : list A) (d : A) :
  last l d <> d -> exists l' x, l = l' ++ [x] /\ x <> d.
Proof.
  intros H. destruct (exists_last (l := l)) as (l' & x & E).
  - intros ->. apply H. reflexivity.
  - exists l', x. split; [assumption | ].
    subst l. rewrite last_last in H. exact H.
Qed.

Lemma hd_differs {A : Type} (l : list A) (d : A) :
  hd d l <> d -> exists x l', l = x :: l' /\ x <> d.
Proof.
  destruct l as [ | x l']; simpl; intros H.
  - contradiction H. reflexivity.
  - exists x, l'. split; [reflexivity | assumption].
Qed.

(** *** The loops that drop one residue *)

Lemma len_run (sb : list Z) (b m : Z) (k : nat) :
  len ((sb ++ [b]) ++ repeat m k) = len sb + 1 + Z.of_nat k.
Proof.
  unfold len. rewrite !length_app, repeat_length. simpl. lia.
Qed.

Lemma read_run (sb : list Z) (b m : Z) (k : nat) (i : Z) :
  len sb + 1 <= i < len sb + 1 + Z.of_nat k ->
  index ((sb ++ [b]) ++ repeat m k) i = Ok m.
Proof.
  intros H. rewrite <- (app_nil_r (repeat m k)).
  apply index_in_run. unfold len in *. rewrite length_app. simpl. lia.
Qed.

Lemma read_before_run (sb : list Z) (b m : Z) (k : nat) (i : Z) :
  i = len sb -> index ((sb ++ [b]) ++ repeat m k) i = Ok b.
Proof.
  intros H. rewrite <- app_assoc. apply index_middle. exact H.
Qed.

(** [body] ends on a number other than [m]; the [r] rows of [rem] are
    what is left of a last residue numbered [m], of which [d] rows are
    already gone. *)
Lemma drop_last_loop (sb : list Z) (b m : Z) (body : list atom) :
  b <> m ->
  forall (r : nat) (rem : list atom) (d : nat) (xs : list Z),
    List.length rem = S r -> (S r <= List.length xs)%nat ->
    drop_last_residue ((sb ++ [b]) ++ repeat m (S r + d))
      (enumerate_from (Z.of_nat d) xs) (body ++ rem) = Ok body.
Proof.
  intros Hb. induction r as [ | r IH]; intros rem d xs Hrem Hxs.
  - destruct rem as [ | a [ | ? ?]]; try discriminate.
    destruct xs as [ | x xs]; [simpl in Hxs; lia | ].
    pose proof (len_run sb b m (1 + d)) as Hlen.
    remember ((sb ++ [b]) ++ repeat m (1 + d)) as seq eqn:Eseq.
    assert (Hcurr : index seq (len seq - 1 - Z.of_nat d) = Ok m).
    { subst seq. apply read_run. lia. }
    assert (Hprev : index seq (len seq - 1 - Z.of_nat d - 1) = Ok b).
    { subst seq. apply read_before_run. lia. }
    simpl enumerate_from. cbn [drop_last_residue].
    rewrite Hcurr. cbn [bind]. rewrite Hprev. cbn [bind].
    assert (E : (b =? m) = false) by lia. rewrite E. cbn [negb].
    unfold but_last. rewrite removelast_last. reflexivity.
  - destruct (exists_last (l := rem)) as (rem' & a & ->).
    { intros ->. discriminate. }
    rewrite length_app in Hrem. simpl in Hrem.
    destruct xs as [ | x xs]; [simpl in Hxs; lia | ].
    pose proof (len_run sb b m (S (S r) + d)) as Hlen.
    assert (IH' := IH rem' (S d) xs).
    replace (S r + S d)%nat with (S (S r) + d)%nat in IH' by lia.
    remember ((sb ++ [b]) ++ repeat m (S (S r) + d)) as seq eqn:Eseq.
    assert (Hcurr : index seq (len seq - 1 - Z.of_nat d) = Ok m).
    { subst seq. apply read_run. lia. }
    assert (Hprev : index seq (len seq - 1 - Z.of_nat d - 1) = Ok m).
    { subst seq. apply read_run. lia. }
    simpl enumerate_from. cbn [drop_last_residue].
    rewrite Hcurr. cbn [bind]. rewrite Hprev. cbn [bind].
    rewrite Z.eqb_refl. cbn [negb].
    unfold but_last. rewrite app_assoc, removelast_last.
    replace (Z.of_nat d + 1) with (Z.of_nat (S d)) by lia.
    apply IH'; simpl in *; lia.
Qed.

(** The last residue of an array of at least two residues is dropped. *)
Lemma drop_last_residue_shape (body lastres : list atom) (m : Z) :
  one_residue m lastres ->
  last (seq_of body) m <> m ->
  drop_last_residue (seq_of (body ++ lastres))
    (enumerate (seq_of (body ++ lastres))) (body ++ lastres) = Ok body.
Proof.
  intros [Hne Hall] Hlast.
  destruct (last_differs _ _ Hlast) as (sb & b & Esb & Hb).
  rewrite seq_of_app, Esb, (seq_of_one_residue m lastres Hall).
  destruct lastres as [ | a0 lastres']; [contradiction Hne; reflexivity | ].
  unfold enumerate.
  replace (List.length (a0 :: lastres')) with (S (List.length lastres') + 0)%nat
    by (simpl; lia).
  apply (drop_last_loop sb b m body Hb (List.length lastres')
           (a0 :: lastres') 0%nat).
  - reflexivity.
  - rewrite length_app, repeat_length. lia.
Qed.

(** [firstres] is a first residue numbered [n]; the [r] rows of [rem] are
    what is left of it, [d] rows are already gone. *)
Lemma drop_first_loop (n nb : Z) (stail : list Z) (tail : list atom) :
  nb <> n ->
  forall (rem : list atom) (d : nat) (xs : list Z),
    rem <> [] -> (List.length rem <= List.length xs)%nat ->
    drop_first_residue (repeat n (d + List.length rem) ++ nb :: stail)
      (enumerate_from (Z.of_nat d) xs) (rem ++ tail) = Ok tail.
Proof.
  intros Hnb. induction rem as [ | a rem IH]; intros d xs Hne Hxs.
  - contradiction Hne. reflexivity.
  - destruct xs as [ | x xs]; [simpl in Hxs; lia | ].
    remember (repeat n (d + List.length (a :: rem)) ++ nb :: stail)
      as seq eqn:Eseq.
    assert (Hcurr : index seq (Z.of_nat d) = Ok n).
    { subst seq. apply (index_in_run [] (nb :: stail)).
      unfold len. simpl. lia. }
    simpl enumerate_from. cbn [drop_first_residue].
    rewrite Hcurr. cbn [bind].
    destruct rem as [ | a' rem'].
    + assert (Hnext : index seq (Z.of_nat d + 1) = Ok nb).
      { subst seq. apply index_middle.
        unfold len. rewrite repeat_length. simpl. lia. }
      rewrite Hnext. cbn [bind].
      assert (E : (nb =? n) = false) by lia. rewrite E. cbn [negb].
      reflexivity.
    + assert (Hnext : index seq (Z.of_nat d + 1) = Ok n).
      { subst seq. apply (index_in_run [] (nb :: stail)).
        unfold len. simpl. lia. }
      rewrite Hnext. cbn [bind]. rewrite Z.eqb_refl. cbn [negb].
      simpl but_first.
      replace (Z.of_nat d + 1) with (Z.of_nat (S d)) by lia.
      specialize (IH (S d) xs).
      replace (S d + List.length (a' :: rem'))%nat
        with (d + List.length (a :: a' :: rem'))%nat in IH by (simpl; lia).
      rewrite <- Eseq in IH. apply IH.
      * discriminate.
      * simpl in *. lia.
Qed.

(** The first residue of an array of at least two residues is dropped. *)
Lemma drop_first_residue_shape (firstres tail : list atom) (n : Z) :
  one_residue n firstres ->
  hd n (seq_of tail) <> n ->
  drop_first_residue (seq_of (firstres ++ tail))
    (enumerate (seq_of (firstres ++ tail))) (firstres ++ tail) = Ok tail.
Proof.
  intros [Hne Hall] Hhd.
  destruct (hd_differs _ _ Hhd) as (nb & stail & Est & Hnb).
  rewrite seq_of_app, Est, (seq_of_one_residue n firstres Hall).
  unfold enumerate.
  apply (drop_first_loop n nb stail tail Hnb firstres 0%nat).
  - exact Hne.
  - rewrite length_app, repeat_length. lia.
Qed.

(** The same for the loop of the Break-IDR branch. *)
Lemma drop_first_try_loop (n nb : Z) (stail : list Z) (tail : list atom) :
  nb <> n ->
  forall (rem : list atom) (d : nat) (xs : list Z),
    rem <> [] -> Forall (fun x => x = n) (firstn (List.length rem) xs) ->
    (List.length rem <= List.length xs)%nat ->
    drop_first_residue_try (repeat n (d + List.length rem) ++ nb :: stail)
      (enumerate_from (Z.of_nat d) xs) (rem ++ tail) = Ok tail.
Proof.
  intros Hnb. induction rem as [ | a rem IH]; intros d xs Hne Hall Hxs.
  - contradiction Hne. reflexivity.
  - destruct xs as [ | x xs]; [simpl in Hxs; lia | ].
    simpl in Hall. inversion Hall as [ | ? ? Hx Hall']; subst.
    remember (repeat n (d + List.length (a :: rem)) ++ nb :: stail)
      as seq eqn:Eseq.
    simpl enumerate_from. cbn [drop_first_residue_try].
    destruct rem as [ | a' rem'].
    + assert (Hnext : index seq (Z.of_nat d + 1) = Ok nb).
      { subst seq. apply index_middle.
        unfold len. rewrite repeat_length. simpl. lia. }
      rewrite Hnext.
      assert (E : (nb =? n) = false) by lia. rewrite E. cbn [negb].
      reflexivity.
    + assert (Hnext : index seq (Z.of_nat d + 1) = Ok n).
      { subst seq. apply (index_in_run [] (nb :: stail)).
        unfold len. simpl. lia. }
      rewrite Hnext. rewrite Z.eqb_refl. cbn [negb].
      simpl but_first.
      replace (Z.of_nat d + 1) with (Z.of_nat (S d)) by lia.
      specialize (IH (S d) xs).
      replace (S d + List.length (a' :: rem'))%nat
        with (d + List.length (a :: a' :: rem'))%nat in IH by (simpl; lia).
      rewrite <- Eseq in IH. apply IH.
      * discriminate.
      * exact Hall'.
      * simpl in *. lia.
Qed.

Lemma firstn_repeat_app (n : Z) (k : nat) (l : list Z) :
  firstn k (repeat n k ++ l) = repeat n k.
Proof.
  induction k as [ | k IH]; simpl.
  - reflexivity.
  - rewrite IH. reflexivity.
Qed.

Lemma drop_first_residue_try_shape (firstres tail : list atom) (n : Z) :
  one_residue n firstres ->
  hd n (seq_of tail) <> n ->
  drop_first_residue_try (seq_of (firstres ++ tail))
    (enumerate (seq_of (firstres ++ tail))) (firstres ++ tail) = Ok tail.
Proof.
  intros [Hne Hall] Hhd.
  destruct (hd_differs _ _ Hhd) as (nb & stail & Est & Hnb).
  rewrite seq_of_app, Est, (seq_of_one_residue n firstres Hall).
  unfold enumerate.
  apply (drop_first_try_loop n nb stail tail Hnb firstres 0%nat).
  - exact Hne.
  - rewrite firstn_repeat_app. apply Forall_forall.
    intros x Hx. apply repeat_spec in Hx. exact Hx.
  - rewrite length_app, repeat_length. lia.
Qed.


(** *** Renumbering and serials *)

Lemma renumber_head (c : Z) (a : atom) (l : list atom) :
  exists l', renumber c (a :: l) = set_resSeq a c :: l'.
Proof. simpl. eexists. reflexivity. Qed.

Lemma renumber_contiguous (l : list atom) :
  forall c, contiguous (seq_of (renumber c l)).
Proof.
  induction l as [ | a l IH]; intros c.
  - exact I.
  - destruct l as [ | b l'].
    + exact I.
    + specialize (IH (if negb (col_resSeq b =? col_resSeq a)
                      then c + 1 else c)).
      change (renumber c (a :: b :: l'))
        with (set_resSeq a c ::
              renumber (if negb (col_resSeq b =? col_resSeq a)
                        then c + 1 else c) (b :: l')).
      destruct (renumber_head
                  (if negb (col_resSeq b =? col_resSeq a) then c + 1 else c)
                  b l') as (l'' & E).
      rewrite E in *. simpl. split.
      * destruct (negb (col_resSeq b =? col_resSeq a)); auto.
      * exact IH.
Qed.

Lemma renumber_core (l : list atom) :
  forall c, map core (renumber c l) = map core l.
Proof.
  induction l as [ | a l IH]; intros c.
  - reflexivity.
  - destruct l as [ | b l'].
    + reflexivity.
    + change (renumber c (a :: b :: l'))
        with (set_resSeq a c ::
              renumber (if negb (col_resSeq b =? col_resSeq a)
                        then c + 1 else c) (b :: l')).
      rewrite map_cons, IH. reflexivity.
Qed.

(** The loop numbers the rows from [c] and follows the residue
    boundaries of the fragment. *)
Lemma renumber_steps (l : list atom) :
  forall c, steps_with (seq_of l) (seq_of (renumber c l)).
Proof.
  induction l as [ | a l IH]; intros c.
  - exact I.
  - destruct l as [ | b l'].
    + exact I.
    + specialize (IH (if negb (col_resSeq b =? col_resSeq a)
                      then c + 1 else c)).
      change (renumber c (a :: b :: l'))
        with (set_resSeq a c ::
              renumber (if negb (col_resSeq b =? col_resSeq a)
                        then c + 1 else c) (b :: l')).
      destruct (renumber_head
                  (if negb (col_resSeq b =? col_resSeq a) then c + 1 else c)
                  b l') as (l'' & E).
      rewrite E in *.
      change (steps_with (col_resSeq a :: col_resSeq b :: seq_of l')
                (c :: seq_of
                        (set_resSeq b
                           (if negb (col_resSeq b =? col_resSeq a)
                            then c + 1 else c) :: l''))).
      cbn [steps_with seq_of map]. split.
      * simpl. destruct (col_resSeq b =? col_resSeq a); reflexivity.
      * exact IH.
Qed.

Lemma renumber_renumbered (c : Z) (l : list atom) :
  l <> [] -> renumbered c (seq_of l) (seq_of (renumber c l)).
Proof.
  intros Hne. split.
  - destruct l as [ | a l]; [contradiction Hne; reflexivity | reflexivity].
  - apply renumber_steps.
Qed.

Lemma reserial_seq (l : list atom) :
  forall i, seq_of (reserial i l) = seq_of l.
Proof.
  induction l as [ | a l IH]; intros i; simpl.
  - reflexivity.
  - rewrite IH. reflexivity.
Qed.

Lemma reserial_core (l : list atom) :
  forall i, map core (reserial i l) = map core l.
Proof.
  induction l as [ | a l IH]; intros i; simpl.
  - reflexivity.
  - rewrite IH. reflexivity.
Qed.

Lemma shift_core (k : Z) (l : list atom) :
  map core (map (shift k) l) = map core l.
Proof.
  rewrite map_map. apply map_ext. intros a. reflexivity.
Qed.

Lemma shift_seq (k : Z) (l : list atom) :
  seq_of (map (shift k) l) = map (fun n => n + k) (seq_of l).
Proof.
  unfold seq_of. rewrite !map_map. apply map_ext. intros a. reflexivity.
Qed.

(** *** Contiguous numbering *)

Lemma contiguousb_spec (l : list Z) :
  contiguousb l = true <-> contiguous l.
Proof.
  induction l as [ | a l IH].
  - simpl. tauto.
  - destruct l as [ | b l'].
    + simpl. tauto.
    + change (contiguousb (a :: b :: l'))
        with (((b =? a) || (b =? a + 1)) && contiguousb (b :: l')).
      change (contiguous (a :: b :: l'))
        with ((b = a \/ b = a + 1) /\ contiguous (b :: l')).
      rewrite andb_true_iff, orb_true_iff, !Z.eqb_eq, IH. tauto.
Qed.

(** Two contiguous lists meet contiguously when the second starts on the
    number after the last of the first. *)
Lemma contiguous_join (l1 l2 : list Z) (a : Z) :
  contiguous (l1 ++ [a]) -> contiguous ((a + 1) :: l2) ->
  contiguous ((l1 ++ [a]) ++ (a + 1) :: l2).
Proof.
  induction l1 as [ | x l1 IH]; intros H1 H2.
  - simpl. split; [right; reflexivity | exact H2].
  - destruct l1 as [ | y l1'].
    + simpl in *. destruct H1 as [Hxa _]. split; [exact Hxa | ].
      split; [right; reflexivity | exact H2].
    + simpl in H1. destruct H1 as [Hxy H1].
      change (contiguous (x :: (y :: l1' ++ [a]) ++ (a + 1) :: l2)).
      simpl. split; [exact Hxy | ]. apply IH; assumption.
Qed.


(** *** The branches of the surgeon *)

Lemma graft_n_shape (nbody nlast ffirst ftail : list atom) (mn f1 : Z) :
  one_residue mn nlast -> last (seq_of nbody) mn <> mn ->
  one_residue f1 ffirst -> hd f1 (seq_of ftail) <> f1 ->
  graft_n (nbody ++ nlast) (ffirst ++ ftail) = Ok (nbody ++ ftail).
Proof.
  intros Hn Hnb Hf Hft. unfold graft_n.
  rewrite (drop_last_residue_shape nbody nlast mn Hn Hnb). cbn [bind].
  rewrite (drop_first_residue_shape ffirst ftail f1 Hf Hft). reflexivity.
Qed.

Lemma graft_c_shape (fbody flast cfirst ctail : list atom) (fl c1 : Z) :
  one_residue fl flast -> last (seq_of fbody) fl <> fl ->
  one_residue c1 cfirst -> hd c1 (seq_of ctail) <> c1 ->
  graft_c (fbody ++ flast) (cfirst ++ ctail)
  = Ok (fbody ++ renumber (last (seq_of fbody) fl + 1) ctail).
Proof.
  intros Hf Hfb Hc Hct. unfold graft_c.
  rewrite (drop_last_residue_shape fbody flast fl Hf Hfb). cbn [bind].
  rewrite (drop_first_residue_shape cfirst ctail c1 Hc Hct). cbn [bind].
  destruct (last_differs _ _ Hfb) as (sb & b & Esb & Hb).
  rewrite Esb, index_last, last_last. reflexivity.
Qed.

(** The C-side fragment continues the numbering of the rows before it. *)
Lemma renumbered_tail_contiguous (fbody ctail : list atom) (fl c1 : Z) :
  last (seq_of fbody) fl <> fl -> hd c1 (seq_of ctail) <> c1 ->
  contiguous (seq_of fbody) ->
  contiguous (seq_of (fbody ++ renumber (last (seq_of fbody) fl + 1) ctail)).
Proof.
  intros Hfb Hct Hcont.
  destruct (last_differs _ _ Hfb) as (sb & b & Esb & Hb).
  destruct (hd_differs _ _ Hct) as (x & st & Est & _).
  destruct ctail as [ | cb ctail']; [discriminate | ].
  rewrite seq_of_app, Esb, last_last.
  pose proof (renumber_contiguous (cb :: ctail') (b + 1)) as Hr.
  destruct (renumber_head (b + 1) cb ctail') as (l' & E).
  rewrite E in *. simpl seq_of in *.
  apply contiguous_join.
  - rewrite <- Esb. exact Hcont.
  - exact Hr.
Qed.

Section Break.

Variables lo up : Z.

Lemma split_at_break_found (fld : list atom) :
  forall (i k : Z) (acc : list atom),
    split_at_break lo up (enumerate_from i fld) (Some k) acc
    = (Some k, acc ++ filter (fun b => negb (at_break lo up b)) fld).
Proof.
  induction fld as [ | a fld IH]; intros i k acc; simpl.
  - rewrite app_nil_r. reflexivity.
  - unfold at_break at 1.
    destruct ((col_resSeq a =? lo) || (col_resSeq a =? up)); simpl.
    + apply IH.
    + rewrite IH, <- app_assoc. reflexivity.
Qed.

Lemma split_at_break_first (fld : list atom) :
  Exists (fun a => at_break lo up a = true) fld ->
  forall (i : Z) (acc : list atom),
    split_at_break lo up (enumerate_from i fld) None acc
    = (Some (i + len (rows_before lo up fld)),
       acc ++ rows_before lo up fld ++ rows_after lo up fld).
Proof.
  induction fld as [ | a fld IH]; intros Hex i acc.
  - inversion Hex.
  - simpl. unfold at_break at 1 2 3.
    destruct ((col_resSeq a =? lo) || (col_resSeq a =? up)) eqn:E.
    + rewrite split_at_break_found. unfold len. simpl.
      rewrite Z.add_0_r. reflexivity.
    + rewrite IH.
      * unfold len. simpl List.length. rewrite <- app_assoc. simpl.
        f_equal. f_equal. lia.
      * inversion Hex as [? ? Ha | ? ? Hex']; subst.
        -- unfold at_break in Ha. rewrite E in Ha. discriminate.
        -- exact Hex'.
Qed.

(** With no row next to the break, every row is kept and no place to
    insert at is found. *)
Lemma split_at_break_none (fld : list atom) :
  Forall (fun a => at_break lo up a = false) fld ->
  forall (i : Z) (acc : list atom),
    split_at_break lo up (enumerate_from i fld) None acc = (None, acc ++ fld).
Proof.
  induction 1 as [ | a fld Ha _ IH]; intros i acc; simpl.
  - rewrite app_nil_r. reflexivity.
  - unfold at_break in Ha. rewrite Ha.
    rewrite IH, <- app_assoc. reflexivity.
Qed.

(** The rows of the fragment go in one after the other from position
    [k]: they end up in their own order between the rows before [k] and
    the rows from [k] on. *)
Lemma insert_rows_shape (k : Z) (rows : list atom) :
  forall (i : Z) (front back : list atom),
    k + i = len front ->
    insert_rows lo (Some k) (enumerate_from i rows) (front ++ back)
    = Ok (front ++ map (shift (lo - 2)) rows ++ back).
Proof.
  induction rows as [ | r rows IH]; intros i front back Hk.
  - reflexivity.
  - simpl enumerate_from. cbn [insert_rows].
    unfold list_insert. rewrite Hk. unfold len. rewrite Nat2Z.id.
    rewrite firstn_app, Nat.sub_diag, firstn_all. simpl firstn.
    rewrite skipn_app, Nat.sub_diag, skipn_all. simpl skipn.
    rewrite app_nil_r. simpl app.
    replace (front ++ set_resSeq r (col_resSeq r + lo - 2) :: back)
      with ((front ++ [shift (lo - 2) r]) ++ back).
    2:{ rewrite <- app_assoc. simpl. unfold shift.
        replace (col_resSeq r + (lo - 2)) with (col_resSeq r + lo - 2) by lia.
        reflexivity. }
    rewrite IH.
    + rewrite <- app_assoc. reflexivity.
    + unfold len in *. rewrite length_app. simpl. lia.
Qed.

End Break.

(** The Break-IDR branch on a fragment of at least two residues and a
    folded structure that has a residue next to the break. *)
Lemma graft_break_shape (ifirst itail fld : list atom) (i1 first : Z)
    (ranges : Z * Z) :
  one_residue i1 ifirst -> hd i1 (seq_of itail) <> i1 ->
  index (seq_of fld) 0 = Ok first ->
  Exists (fun a => at_break (first + fst ranges - 1) (first + snd ranges) a
                   = true) fld ->
  graft_break (ifirst ++ itail) fld ranges
  = Ok (rows_before (first + fst ranges - 1) (first + snd ranges) fld ++
        map (shift (first + fst ranges - 1 - 2)) itail ++
        rows_after (first + fst ranges - 1) (first + snd ranges) fld).
Proof.
  intros Hi Hit Hfirst Hex. unfold graft_break.
  rewrite (drop_first_residue_try_shape ifirst itail i1 Hi Hit). cbn [bind].
  rewrite Hfirst. cbn [bind]. unfold enumerate.
  rewrite (split_at_break_first _ _ fld Hex 0 []).
  simpl app. rewrite insert_rows_shape by lia. cbn [bind].
  destruct (hd_differs _ _ Hit) as (x & st & Est & _).
  destruct itail as [ | ib itail']; [discriminate | ].
  destruct (rows_before _ _ fld); reflexivity.
Qed.

(** The same branch on a folded structure that has no residue next to
    the break: the place to insert at is not bound. *)
Lemma graft_break_unbound (ifirst itail fld : list atom) (i1 first : Z)
    (ranges : Z * Z) :
  one_residue i1 ifirst -> hd i1 (seq_of itail) <> i1 ->
  index (seq_of fld) 0 = Ok first ->
  Forall (fun a => at_break (first + fst ranges - 1) (first + snd ranges) a
                   = false) fld ->
  graft_break (ifirst ++ itail) fld ranges = Raise UnboundLocalError.
Proof.
  intros Hi Hit Hfirst Hnone. unfold graft_break.
  rewrite (drop_first_residue_try_shape ifirst itail i1 Hi Hit). cbn [bind].
  rewrite Hfirst. cbn [bind]. unfold enumerate.
  rewrite (split_at_break_none _ _ fld Hnone 0 []).
  destruct (hd_differs _ _ Hit) as (x & st & Est & _).
  destruct itail as [ | ib itail']; [discriminate | ].
  reflexivity.
Qed.

Lemma existsb_true_Exists {A : Type} (f : A -> bool) (l : list A) :
  existsb f l = true -> Exists (fun a => f a = true) l.
Proof.
  intros H. apply existsb_exists in H. apply Exists_exists. exact H.
Qed.

Lemma existsb_false_Forall {A : Type} (f : A -> bool) (l : list A) :
  existsb f l = false -> Forall (fun a => f a = false) l.
Proof.
  induction l as [ | a l IH]; simpl; intros H.
  - constructor.
  - apply orb_false_iff in H. destruct H as [Ha Hl].
    constructor; [exact Ha | exact (IH Hl)].
Qed.

Lemma last_app_differs (l1 l2 : list Z) (d : Z) :
  last l2 d <> d -> last (l1 ++ l2) d = last l2 d.
Proof.
  intros H. destruct (last_differs _ _ H) as (l' & x & -> & _).
  rewrite app_assoc, !last_last. reflexivity.
Qed.

Lemma hd_app_differs (l1 l2 : list Z) (d : Z) :
  hd d l1 <> d -> hd d (l1 ++ l2) = hd d l1.
Proof.
  intros H. destruct (hd_differs _ _ H) as (x & l' & -> & _). reflexivity.
Qed.

Lemma index_first_of_residue (n : Z) (l1 l2 : list atom) :
  one_residue n l1 -> index (seq_of (l1 ++ l2)) 0 = Ok n.
Proof.
  intros [Hne Hall]. destruct l1 as [ | a l1]; [contradiction Hne; reflexivity | ].
  inversion Hall; subst. reflexivity.
Qed.

(** *** The surgeon, case by case *)

(** C5, as amended. In the Break-IDR case, on a fragment of at least two
    residues and a folded structure whose first residue number is
    [first]: when some folded row is numbered [first + lower - 1] or
    [first + upper], the surgeon drops the first residue of the
    fragment, leaves out of the folded rows exactly those numbered
    [first + lower - 1] or [first + upper] and keeps every other row,
    those numbered in between included, adds [first + lower - 3] to the
    residue numbers of the fragment and puts its rows, in their order,
    where the first row left out was; serials are then 1..N. When no
    folded row is numbered so, it raises [UnboundLocalError]. *)
Theorem psurgeon_break_shape (ifirst itail fld : list atom) (i1 first : Z)
    (ranges : Z * Z) :
  one_residue i1 ifirst -> hd i1 (seq_of itail) <> i1 ->
  index (seq_of fld) 0 = Ok first ->
  let lo := first + fst ranges - 1 in
  let up := first + snd ranges in
  psurgeon (One (ifirst ++ itail)) fld (disorder_cases 1) ranges
  = if existsb (at_break lo up) fld
    then Ok (reserial 1
               (rows_before lo up fld ++
                map (shift (lo - 2)) itail ++
                rows_after lo up fld))
    else Raise UnboundLocalError.
Proof.
  intros Hi Hit Hfirst lo up.
  change (psurgeon (One (ifirst ++ itail)) fld (disorder_cases 1) ranges)
    with (new_struc_arr <- graft_break (ifirst ++ itail) fld ranges ;;
          Ok (reserial 1 new_struc_arr)).
  destruct (existsb (at_break lo up) fld) eqn:E.
  - rewrite (graft_break_shape ifirst itail fld i1 first ranges Hi Hit Hfirst
               (existsb_true_Exists _ _ E)).
    reflexivity.
  - rewrite (graft_break_unbound ifirst itail fld i1 first ranges Hi Hit
               Hfirst (existsb_false_Forall _ _ E)).
    reflexivity.
Qed.

(** On a folded structure numbered 1..6: the range (2, 4) finds the rows
    numbered 2 and 5, the range (8, 9) finds none. *)
Lemma psurgeon_break_shape_witness :
  psurgeon (One ([row "IDR" 1] ++ [row "IDR" 2; row "IDR" 3])) fld_1_6
    (disorder_cases 1) (2, 4)
  = Ok (reserial 1
          (rows_before 2 5 fld_1_6 ++
           map (shift 0) [row "IDR" 2; row "IDR" 3] ++
           rows_after 2 5 fld_1_6)) /\
  psurgeon (One ([row "IDR" 1] ++ [row "IDR" 2; row "IDR" 3])) fld_1_6
    (disorder_cases 1) (8, 9)
  = Raise UnboundLocalError.
Proof.
  split.
  - apply (psurgeon_break_shape [row "IDR" 1] [row "IDR" 2; row "IDR" 3]
             fld_1_6 1 1 (2, 4)).
    + split; [discriminate | repeat constructor].
    + simpl. lia.
    + reflexivity.
  - apply (psurgeon_break_shape [row "IDR" 1] [row "IDR" 2; row "IDR" 3]
             fld_1_6 1 1 (8, 9)).
    + split; [discriminate | repeat constructor].
    + simpl. lia.
    + reflexivity.
Defined.

(** C5, as stated, fails: with the boundary range (2, 4) on a folded
    structure numbered 1..6, the folded rows numbered 3 and 4, inside
    the range, are still in the result; the rows that went are those
    numbered 2 and 5. *)
Lemma psurgeon_break_keeps_rows_in_range :
  exists r,
    psurgeon (One idr_1_3) fld_1_6 "Break-IDR" (2, 4) = Ok r /\
    map (fun a => (col_resName a, col_resSeq a)) r
    = [("FLD", 1); ("IDR", 2); ("IDR", 3); ("FLD", 3); ("FLD", 4); ("FLD", 6)].
Proof.
  eexists. split; vm_compute; reflexivity.
Qed.

(** C2, as amended. Take an N-side fragment and a C-side fragment of at
    least two residues each and a folded structure of at least three: a
    first residue, a last residue and rows between them. The surgeon
    returns an array in the N-terminal, the C-terminal and the combined
    case. It numbers anew only the C-side fragment: the first row it
    keeps of it takes the number after the last folded row it keeps,
    and from row to row the number stays where the number of the
    fragment stays and grows by exactly one where it changes; every
    other row keeps the number it came with. So the numbers step by
    exactly one from end to end in the C-terminal case when those of
    the kept folded rows do, in the combined case when those of the
    kept N-side and folded rows do, and in the N-terminal case exactly
    when those of the kept rows already do. In the Break-IDR case, when
    some folded row is numbered [first + lower - 1] or
    [first + upper], it returns an array in which the numbers of the
    fragment are moved by [first + lower - 3] and every folded row kept
    has its number. In every case the rows of the result are the kept
    rows of the sources in their source order. *)
Theorem psurgeon_numbering
    (nbody nlast ffirst fmid flast cfirst ctail : list atom)
    (mn f1 fl c1 : Z) (ranges : Z * Z) :
  one_residue mn nlast -> last (seq_of nbody) mn <> mn ->
  one_residue f1 ffirst -> hd f1 (seq_of fmid) <> f1 ->
  one_residue fl flast -> last (seq_of fmid) fl <> fl ->
  one_residue c1 cfirst -> hd c1 (seq_of ctail) <> c1 ->
  let nidr := nbody ++ nlast in
  let fld := ffirst ++ fmid ++ flast in
  let cidr := cfirst ++ ctail in
  let lo := f1 + fst ranges - 1 in
  let up := f1 + snd ranges in
  exists rN rC rNC numbers,
    psurgeon (One nidr) fld (disorder_cases 0) ranges = Ok rN /\
    psurgeon (One cidr) fld (disorder_cases 2) ranges = Ok rC /\
    psurgeon (Both nidr cidr) fld
      (String.append (disorder_cases 0) (disorder_cases 2)) ranges = Ok rNC /\
    seq_of rN = seq_of (nbody ++ fmid ++ flast) /\
    seq_of rC = seq_of (ffirst ++ fmid) ++ numbers /\
    seq_of rNC = seq_of (nbody ++ fmid) ++ numbers /\
    renumbered (last (seq_of fmid) fl + 1) (seq_of ctail) numbers /\
    (contiguous (seq_of (ffirst ++ fmid)) -> contiguous (seq_of rC)) /\
    (contiguous (seq_of (nbody ++ fmid)) -> contiguous (seq_of rNC)) /\
    map core rN = map core (nbody ++ fmid ++ flast) /\
    map core rC = map core (ffirst ++ fmid ++ ctail) /\
    map core rNC = map core (nbody ++ fmid ++ ctail) /\
    (Exists (fun a => at_break lo up a = true) fld ->
     exists rB,
       psurgeon (One cidr) fld (disorder_cases 1) ranges = Ok rB /\
       seq_of rB = seq_of (rows_before lo up fld) ++
                   map (fun n => n + (lo - 2)) (seq_of ctail) ++
                   seq_of (rows_after lo up fld) /\
       map core rB = map core (rows_before lo up fld ++ ctail ++
                               rows_after lo up fld)).
Proof.
  intros Hn Hnb Hf Hfm Hl Hlm Hc Hct nidr fld cidr lo up.
  assert (Hfm' : hd f1 (seq_of (fmid ++ flast)) <> f1).
  { rewrite seq_of_app, hd_app_differs; assumption. }
  assert (Elast : forall pre,
             last (seq_of (pre ++ fmid)) fl = last (seq_of fmid) fl).
  { intros pre. rewrite seq_of_app, last_app_differs; [reflexivity | ].
    assumption. }
  assert (Hbody : forall pre, last (seq_of (pre ++ fmid)) fl <> fl).
  { intros pre. rewrite Elast. assumption. }
  assert (Hctail : ctail <> []).
  { intros ->. apply Hct. reflexivity. }
  assert (EN : graft_n nidr fld = Ok (nbody ++ fmid ++ flast)).
  { apply (graft_n_shape nbody nlast ffirst (fmid ++ flast) mn f1);
      assumption. }
  assert (EC : graft_c fld cidr
               = Ok ((ffirst ++ fmid) ++
                     renumber (last (seq_of fmid) fl + 1) ctail)).
  { unfold fld. rewrite app_assoc, <- (Elast ffirst).
    apply (graft_c_shape (ffirst ++ fmid) flast cfirst ctail fl c1);
      try assumption. apply Hbody. }
  assert (ENC : graft_c (nbody ++ fmid ++ flast) cidr
                = Ok ((nbody ++ fmid) ++
                      renumber (last (seq_of fmid) fl + 1) ctail)).
  { rewrite app_assoc, <- (Elast nbody).
    apply (graft_c_shape (nbody ++ fmid) flast cfirst ctail fl c1);
      try assumption. apply Hbody. }
  exists (reserial 1 (nbody ++ fmid ++ flast)),
         (reserial 1 ((ffirst ++ fmid) ++
            renumber (last (seq_of fmid) fl + 1) ctail)),
         (reserial 1 ((nbody ++ fmid) ++
            renumber (last (seq_of fmid) fl + 1) ctail)),
         (seq_of (renumber (last (seq_of fmid) fl + 1) ctail)).
  split; [ | split; [ | split; [ | split; [ | split; [ | split; [ | split;
    [ | split; [ | split; [ | split; [ | split; [ | split]]]]]]]]]]].
  - change (psurgeon (One nidr) fld (disorder_cases 0) ranges)
      with (a <- graft_n nidr fld ;; Ok (reserial 1 a)).
    rewrite EN. reflexivity.
  - change (psurgeon (One cidr) fld (disorder_cases 2) ranges)
      with (a <- graft_c fld cidr ;; Ok (reserial 1 a)).
    rewrite EC. reflexivity.
  - change (psurgeon (Both nidr cidr) fld
              (String.append (disorder_cases 0) (disorder_cases 2)) ranges)
      with (a <- (new_struc <- graft_n nidr fld ;; graft_c new_struc cidr) ;;
            Ok (reserial 1 a)).
    rewrite EN. cbn [bind]. rewrite ENC. reflexivity.
  - apply reserial_seq.
  - rewrite reserial_seq. apply seq_of_app.
  - rewrite reserial_seq. apply seq_of_app.
  - apply renumber_renumbered. exact Hctail.
  - intros Hcont. rewrite reserial_seq, <- (Elast ffirst).
    apply (renumbered_tail_contiguous (ffirst ++ fmid) ctail fl c1);
      try assumption. apply Hbody.
  - intros Hcont. rewrite reserial_seq, <- (Elast nbody).
    apply (renumbered_tail_contiguous (nbody ++ fmid) ctail fl c1);
      try assumption. apply Hbody.
  - apply reserial_core.
  - rewrite reserial_core, !map_app, renumber_core. rewrite <- app_assoc.
    reflexivity.
  - rewrite reserial_core, !map_app, renumber_core. rewrite <- app_assoc.
    reflexivity.
  - intros Hex.
    assert (EB : graft_break cidr fld ranges
                 = Ok (rows_before lo up fld ++
                       map (shift (lo - 2)) ctail ++ rows_after lo up fld)).
    { apply (graft_break_shape cfirst ctail fld c1 f1 ranges);
        try assumption.
      apply (index_first_of_residue f1 ffirst (fmid ++ flast) Hf). }
    exists (reserial 1 (rows_before lo up fld ++
              map (shift (lo - 2)) ctail ++ rows_after lo up fld)).
    split; [ | split].
    + change (psurgeon (One cidr) fld (disorder_cases 1) ranges)
        with (a <- graft_break cidr fld ranges ;; Ok (reserial 1 a)).
      rewrite EB. reflexivity.
    + rewrite reserial_seq, !seq_of_app, shift_seq. reflexivity.
    + rewrite reserial_core, !map_app, shift_core. reflexivity.
Qed.

(** C2, as stated, fails: in the N-terminal case a fragment numbered 1, 2
    on a folded structure numbered 10, 11 gives the residue numbers 1, 11,
    a gap. *)
Lemma psurgeon_n_idr_leaves_a_gap :
  exists r,
    psurgeon (One idr_1_2) fld_10_11 "N-IDR" (0, 0) = Ok r /\
    seq_of r = [1; 11] /\
    contiguousb (seq_of r) = false.
Proof.
  eexists. repeat split; vm_compute; reflexivity.
Qed.


(** An N-side fragment numbered 1, 2, 3, a folded structure numbered
    2..5 and a C-side fragment numbered 1, 7, 7, 9: the C-side rows come
    out numbered 5, 5, 6 after the folded rows 2, 3, 4. *)
Lemma psurgeon_numbering_witness :
  exists rN rC rNC rB,
    psurgeon (One (n_body ++ n_last)) (f_first ++ f_mid ++ f_last)
      (disorder_cases 0) (2, 3) = Ok rN /\
    psurgeon (One (c_first ++ c_tail)) (f_first ++ f_mid ++ f_last)
      (disorder_cases 2) (2, 3) = Ok rC /\
    psurgeon (Both (n_body ++ n_last) (c_first ++ c_tail))
      (f_first ++ f_mid ++ f_last)
      (String.append (disorder_cases 0) (disorder_cases 2)) (2, 3) = Ok rNC /\
    psurgeon (One (c_first ++ c_tail)) (f_first ++ f_mid ++ f_last)
      (disorder_cases 1) (2, 3) = Ok rB /\
    seq_of rN = seq_of (n_body ++ f_mid ++ f_last) /\
    (exists numbers,
       seq_of rC = seq_of (f_first ++ f_mid) ++ numbers /\
       seq_of rNC = seq_of (n_body ++ f_mid) ++ numbers /\
       renumbered (4 + 1) (seq_of c_tail) numbers) /\
    contiguous (seq_of rC) /\
    contiguous (seq_of rNC) /\
    seq_of rB
    = seq_of (rows_before 3 5 (f_first ++ f_mid ++ f_last)) ++
      map (fun n => n + 1) (seq_of c_tail) ++
      seq_of (rows_after 3 5 (f_first ++ f_mid ++ f_last)) /\
    map core rN = map core (n_body ++ f_mid ++ f_last) /\
    map core rC = map core (f_first ++ f_mid ++ c_tail) /\
    map core rNC = map core (n_body ++ f_mid ++ c_tail) /\
    map core rB
    = map core (rows_before 3 5 (f_first ++ f_mid ++ f_last) ++
                c_tail ++
                rows_after 3 5 (f_first ++ f_mid ++ f_last)).
Proof.
  destruct (psurgeon_numbering n_body n_last f_first f_mid f_last
              c_first c_tail 3 2 5 1 (2, 3))
    as (rN & rC & rNC & numbers & HN & HC & HNC & SN & SC & SNC & Hnum &
        HcC & HcNC & CN & CC & CNC & HB).
  - split; [discriminate | repeat constructor].
  - simpl. lia.
  - split; [discriminate | repeat constructor].
  - simpl. lia.
  - split; [discriminate | repeat constructor].
  - simpl. lia.
  - split; [discriminate | repeat constructor].
  - simpl. lia.
  - destruct HB as (rB & HB & SB & CB).
    { apply Exists_cons_tl, Exists_cons_hd. reflexivity. }
    exists rN, rC, rNC, rB.
    split; [exact HN | ]. split; [exact HC | ]. split; [exact HNC | ].
    split; [exact HB | ]. split; [exact SN | ].
    split; [exists numbers; split; [exact SC | split; [exact SNC | exact Hnum]] | ].
    split; [apply HcC; apply contiguousb_spec; reflexivity | ].
    split; [apply HcNC; apply contiguousb_spec; reflexivity | ].
    split; [exact SB | ]. split; [exact CN | ]. split; [exact CC | ].
    split; [exact CNC | exact CB].
Defined.

End SurgeonFacts.

(** ** [sliding_window] *)

Module WindowFacts.

Import Ldrs Samples.

Section Scan.

Variable vdW : string -> option float.
Variable np_arccos np_sin cell : float -> float.
Variable max_clash : Z.
Variable tolerance : float.

Local Abbreviation offsets :=
  (Ldrs.offsets vdW np_arccos np_sin cell max_clash tolerance).
Local Abbreviation junction :=
  (Ldrs.junction vdW np_arccos np_sin cell max_clash tolerance).

(** Where the gates fail the offset is passed over and the scan goes
    on. *)
Lemma offsets_skips_closed_gates (idr_resseq idr_res : list Z)
    (idr_CA idr_O nterm_N nterm_CA : list vec3) (cand i : Z)
    (curr_c next_n next_ca ca : vec3) (steps : list (Z * vec3)) (w : window) :
  index nterm_N (i + 1) = Ok next_n ->
  index nterm_CA (i + 1) = Ok next_ca ->
  index idr_CA i = Ok ca ->
  gates (calculate_distance curr_c next_n)
        (calculate_angle np_arccos ca curr_c next_n)
        (calculate_distance curr_c next_ca) = false ->
  offsets idr_resseq idr_res idr_CA idr_O nterm_N nterm_CA cand
          ((i, curr_c) :: steps) w
  = offsets idr_resseq idr_res idr_CA idr_O nterm_N nterm_CA cand steps w.
Proof.
  intros Hn Hca Hi Hg. cbn [Ldrs.offsets].
  rewrite Hn, Hca. cbn [bind]. rewrite Hi. cbn [bind]. rewrite Hg.
  reflexivity.
Qed.

(** Where the gates hold the junction is made, and the scan goes on to
    the next offset with the arrays the junction left: nothing ends the
    loop after a junction. *)
Lemma offsets_goes_on_after_junction (idr_resseq idr_res : list Z)
    (idr_CA idr_O nterm_N nterm_CA : list vec3) (cand i : Z)
    (curr_c next_n next_ca ca : vec3) (steps : list (Z * vec3))
    (w w' : window) :
  index nterm_N (i + 1) = Ok next_n ->
  index nterm_CA (i + 1) = Ok next_ca ->
  index idr_CA i = Ok ca ->
  gates (calculate_distance curr_c next_n)
        (calculate_angle np_arccos ca curr_c next_n)
        (calculate_distance curr_c next_ca) = true ->
  junction idr_resseq idr_res idr_CA idr_O cand i curr_c next_n next_ca w
  = Ok w' ->
  offsets idr_resseq idr_res idr_CA idr_O nterm_N nterm_CA cand
          ((i, curr_c) :: steps) w
  = offsets idr_resseq idr_res idr_CA idr_O nterm_N nterm_CA cand steps w'.
Proof.
  intros Hn Hca Hi Hg Hj. cbn [Ldrs.offsets].
  rewrite Hn, Hca. cbn [bind]. rewrite Hi. cbn [bind]. rewrite Hg, Hj.
  reflexivity.
Qed.

End Scan.

(** C4. The candidate [n_side] passes the three gates against [c_side]
    at offset 0 and at offset 1. The junction at offset 0 is made and
    written; the scan then goes on to offset 1, makes for a second
    junction on the array that the first one cut, and the function
    leaves with [IndexError]: the count of matches is never returned. *)
Theorem sliding_window_scans_past_first_junction :
  gates (calculate_distance (V3 0 0 0) (V3 (0 - 0.7) 1.2 0))
        (calculate_angle arccos_series (V3 (0 + 1.5) 0 0) (V3 0 0 0)
                         (V3 (0 - 0.7) 1.2 0))
        (calculate_distance (V3 0 0 0) (V3 (0 - 2.0) 1.3 0)) = true /\
  gates (calculate_distance (V3 10 0 0) (V3 (10 - 0.7) 1.2 0))
        (calculate_angle arccos_series (V3 (10 + 1.5) 0 0) (V3 10 0 0)
                         (V3 (10 - 0.7) 1.2 0))
        (calculate_distance (V3 10 0 0) (V3 (10 - 2.0) 1.3 0)) = true /\
  map fst (fst (sliding_window radii arccos_series sin_series exact_cell
                  40 0.4 c_side [n_side])) = [0] /\
  snd (sliding_window radii arccos_series sin_series exact_cell
         40 0.4 c_side [n_side]) = Raise IndexError.
Proof.
  repeat split; vm_compute; reflexivity.
Qed.

End WindowFacts.

(** ** [align_coords] *)

Module AlignFacts.

Import Ldrs Reference Samples.




Section Anchor.

Variable np_linalg_svd : mat3 -> mat3 * vec3 * mat3.
Variable round3 cell : float -> float.

Local Abbreviation align_coords :=
  (Ldrs.align_coords np_linalg_svd round3 cell).
Local Abbreviation rotation_matrix :=
  (Ldrs.rotation_matrix np_linalg_svd).



(** In any other case the dictionary stays empty and the first key read
    raises [KeyError]. *)
Lemma align_coords_other_case (sample : list atom) (target : mat3)
    (case : string) (first last : Z) :
  index (seq_of sample) 0 = Ok first ->
  index (seq_of sample) (-1) = Ok last ->
  String.eqb case (disorder_cases 0) = false ->
  String.eqb case (disorder_cases 2) = false ->
  align_coords sample target case = Raise KeyError.
Proof.
  intros Hf Hl H0 H2. unfold Ldrs.align_coords, idr_term_idx.
  rewrite Hf, Hl. cbn [bind]. rewrite H0, H2. reflexivity.
Qed.

End Anchor.



End AlignFacts.


(** ** [consecutive_grouper] *)

Module GrouperFacts.

Import Ldrs Reference.

Lemma range_from_snoc (n : nat) :
  forall a, range_from n a 1 ++ [a + Z.of_nat n] = range_from (S n) a 1.
Proof.
  induction n as [ | n IH]; intros a.
  - simpl. rewrite Z.add_0_r. reflexivity.
  - change (range_from (S n) a 1) with (a :: range_from n (a + 1) 1).
    change (range_from (S (S n)) a 1) with (a :: range_from (S n) (a + 1) 1).
    rewrite <- IH. simpl app.
    replace (a + 1 + Z.of_nat n) with (a + Z.of_nat (S n)) by lia.
    reflexivity.
Qed.

Lemma range_from_length (n : nat) :
  forall a, List.length (range_from n a 1) = n.
Proof.
  induction n as [ | n IH]; intros a; simpl.
  - reflexivity.
  - rewrite IH. reflexivity.
Qed.

Lemma range_from_last (n : nat) (a : Z) :
  index (range_from (S n) a 1) (len (range_from (S n) a 1) - 1)
  = Ok (a + Z.of_nat n).
Proof.
  rewrite <- range_from_snoc.
  replace (len (range_from n a 1 ++ [a + Z.of_nat n]) - 1)
    with (len (range_from n a 1)).
  - unfold index, len.
    assert (E : (Z.of_nat (List.length (range_from n a 1)) <? 0) = false)
      by (apply Z.ltb_ge; lia).
    rewrite E, E, Nat2Z.id, nth_error_app2 by lia.
    rewrite Nat.sub_diag. reflexivity.
  - unfold len. rewrite length_app. simpl. lia.
Qed.

(** The ranges that [break_check] walks through: [range(first, stop)]. *)
Lemma range_of_run (n : nat) (a : Z) :
  range a (a + Z.of_nat (S n)) 1 = range_from (S n) a 1.
Proof.
  unfold range.
  assert (E : (a + Z.of_nat (S n) <=? a) = false) by (apply Z.leb_gt; lia).
  rewrite E. f_equal.
  replace (a + Z.of_nat (S n) - a + 1 - 1) with (Z.of_nat (S n)) by lia.
  rewrite Z.div_1_r, Nat2Z.id. reflexivity.
Qed.

Lemma group_bounds_run (n : nat) (a : Z) :
  group_bounds (range_from (S n) a 1) = Ok (a, a + Z.of_nat (S n)).
Proof.
  unfold group_bounds. rewrite range_from_last.
  change (index (range_from (S n) a 1) 0) with (@Ok Z a). cbn [bind].
  f_equal. f_equal. lia.
Qed.

(** The loop keeps every group a run, and the groups in order spell the
    input. *)
Lemma grouper_loop_runs (xs : list Z) :
  forall (closed : list (list Z)) (a : Z) (n : nat),
    Forall is_run closed ->
    Forall is_run
      (grouper_loop closed (range_from (S n) a 1) (a + Z.of_nat n) xs) /\
    List.concat (grouper_loop closed (range_from (S n) a 1) (a + Z.of_nat n) xs)
    = List.concat closed ++ range_from (S n) a 1 ++ xs.
Proof.
  induction xs as [ | x xs IH]; intros closed a n Hclosed.
  - cbn [grouper_loop]. split.
    + apply Forall_app. split; [exact Hclosed | ].
      constructor; [ | constructor]. exists a, n. reflexivity.
    + rewrite concat_app. simpl. rewrite !app_nil_r. reflexivity.
  - cbn [grouper_loop].
    destruct (x =? a + Z.of_nat n + 1) eqn:E.
    + apply Z.eqb_eq in E. subst x.
      replace (a + Z.of_nat n + 1) with (a + Z.of_nat (S n)) by lia.
      rewrite range_from_snoc.
      destruct (IH closed a (S n) Hclosed) as [H1 H2].
      split; [exact H1 | ].
      rewrite H2, <- range_from_snoc, <- app_assoc. reflexivity.
    + assert (Hc : Forall is_run (closed ++ [range_from (S n) a 1])).
      { apply Forall_app. split; [exact Hclosed | ].
        constructor; [ | constructor]. exists a, n. reflexivity. }
      pose proof (IH _ x 0%nat Hc) as IHx.
      change (range_from 1 x 1) with [x] in IHx.
      change (Z.of_nat 0) with 0 in IHx. rewrite Z.add_0_r in IHx.
      destruct IHx as [H1 H2].
      split; [exact H1 | ].
      rewrite H2, concat_app. simpl. rewrite app_nil_r, <- app_assoc.
      reflexivity.
Qed.

Lemma bounds_of_runs (gs : list (list Z)) :
  Forall is_run gs ->
  exists bounds,
    mapM group_bounds gs = Ok bounds /\
    List.concat (map (fun b => range (fst b) (snd b) 1) bounds) = List.concat gs /\
    Forall (fun b => fst b < snd b) bounds.
Proof.
  induction 1 as [ | g gs (a & n & ->) _ (bounds & E & Hc & Hlt)].
  - exists []. repeat split. constructor.
  - exists ((a, a + Z.of_nat (S n)) :: bounds).
    cbn [mapM]. rewrite group_bounds_run. cbn [bind]. rewrite E.
    repeat split.
    + cbn [map List.concat fst snd]. rewrite range_of_run, Hc. reflexivity.
    + constructor; [simpl; lia | exact Hlt].
Qed.

(** X1. On a list that is not empty [consecutive_grouper] raises
    nothing; it returns half-open ranges, none empty, and walking
    through the ranges one after the other gives back the list: every
    index is in exactly one range, in its place. *)
Theorem consecutive_grouper_round_trip (seq : list Z) :
  seq <> [] ->
  exists bounds,
    consecutive_grouper seq = Ok bounds /\
    List.concat (map (fun b => range (fst b) (snd b) 1) bounds) = seq /\
    Forall (fun b => fst b < snd b) bounds.
Proof.
  intros Hne. destruct seq as [ | x0 xs]; [contradiction Hne; reflexivity | ].
  unfold consecutive_grouper.
  change (index (x0 :: xs) 0) with (@Ok Z x0). cbn [bind but_first tl].
  pose proof (grouper_loop_runs xs [] x0 0%nat (Forall_nil _)) as Hloop.
  change (range_from 1 x0 1) with [x0] in Hloop.
  change (Z.of_nat 0) with 0 in Hloop. rewrite Z.add_0_r in Hloop.
  destruct Hloop as [Hruns Hcat].
  destruct (bounds_of_runs _ Hruns) as (bounds & E & Hc & Hlt).
  exists bounds. repeat split; try assumption.
  rewrite Hc, Hcat. reflexivity.
Qed.

Lemma consecutive_grouper_round_trip_witness :
  exists bounds,
    consecutive_grouper [0; 1; 2; 7; 8; 4] = Ok bounds /\
    List.concat (map (fun b => range (fst b) (snd b) 1) bounds)
    = [0; 1; 2; 7; 8; 4] /\
    Forall (fun b => fst b < snd b) bounds.
Proof.
  apply (consecutive_grouper_round_trip [0; 1; 2; 7; 8; 4]). discriminate.
Defined.

Lemma grouper_loop_one_run (k : nat) :
  forall (a : Z) (n : nat),
    grouper_loop [] (range_from (S n) a 1) (a + Z.of_nat n)
      (range_from k (a + Z.of_nat (S n)) 1)
    = [range_from (S n + k) a 1].
Proof.
  induction k as [ | k IH]; intros a n.
  - rewrite Nat.add_0_r. reflexivity.
  - change (range_from (S k) (a + Z.of_nat (S n)) 1)
      with ((a + Z.of_nat (S n)) :: range_from k (a + Z.of_nat (S n) + 1) 1).
    cbn [grouper_loop].
    replace (a + Z.of_nat (S n) =? a + Z.of_nat n + 1) with true
      by (symmetry; apply Z.eqb_eq; lia).
    rewrite (range_from_snoc (S n) a).
    replace (a + Z.of_nat (S n) + 1) with (a + Z.of_nat (S (S n))) by lia.
    rewrite (IH a (S n)). f_equal. f_equal. lia.
Qed.

(** X2. The indices [a, a + 1, ..., a + n] without a hole come back as
    the single range [(a, a + n + 1)]. *)
Theorem consecutive_grouper_one_run (a : Z) (n : nat) :
  consecutive_grouper (range_from (S n) a 1)
  = Ok [(a, a + Z.of_nat (S n))].
Proof.
  unfold consecutive_grouper.
  change (index (range_from (S n) a 1) 0) with (@Ok Z a).
  cbn [bind but_first tl range_from].
  pose proof (grouper_loop_one_run n a 0%nat) as Hloop.
  change (range_from 1 a 1) with [a] in Hloop.
  change (Z.of_nat 0) with 0 in Hloop. change (Z.of_nat 1) with 1 in Hloop.
  rewrite Z.add_0_r in Hloop. rewrite Hloop.
  cbn [mapM]. rewrite group_bounds_run. reflexivity.
Qed.

End GrouperFacts.

(** ** [tolerance_calculator] *)

Module BudgetFacts.

Import PyFloat.

Lemma SFcompare_refl (x : spec_float) :
  x <> S754_nan -> SFcompare x x = Some Eq.
Proof.
  destruct x as [s | s | | s m e]; intros H; simpl.
  - reflexivity.
  - destruct s; reflexivity.
  - contradiction H. reflexivity.
  - rewrite Z.compare_refl.
    assert (E : PosDef.Pos.compare_cont Eq m m = Eq)
      by exact (Pos.compare_cont_refl m Eq).
    rewrite E. destruct s; reflexivity.
Qed.

Lemma is_nan_spec (t : float) :
  PrimFloat.is_nan t = true -> Prim2SF t = S754_nan.
Proof.
  unfold PrimFloat.is_nan. rewrite eqb_spec. unfold SFeqb. intros H.
  destruct (Prim2SF t) as [s | s | | s m e] eqn:E; try reflexivity;
    rewrite SFcompare_refl in H by discriminate; discriminate H.
Qed.

Lemma nan_not_lt (t x : float) :
  Prim2SF t = S754_nan -> (t <? x)%float = false /\ (x <? t)%float = false.
Proof.
  intros H. rewrite !ltb_spec, H. split.
  - reflexivity.
  - unfold SFltb. destruct (Prim2SF x); reflexivity.
Qed.

Lemma nan_mul (t x : float) :
  Prim2SF t = S754_nan -> Prim2SF (t * x) = S754_nan.
Proof. intros H. rewrite mul_spec, H. reflexivity. Qed.

Lemma mul_nan (t x : float) :
  Prim2SF t = S754_nan -> Prim2SF (x * t) = S754_nan.
Proof.
  intros H. rewrite mul_spec, H. unfold SF64mul, SFmul.
  destruct (Prim2SF x); reflexivity.
Qed.

Lemma nan_sub (t x : float) :
  Prim2SF t = S754_nan -> Prim2SF (t - x) = S754_nan.
Proof. intros H. rewrite sub_spec, H. reflexivity. Qed.

Lemma py_int_nan (t : float) :
  Prim2SF t = S754_nan -> py_int t = IntOfNaN.
Proof. intros H. unfold py_int. rewrite H. reflexivity. Qed.

Lemma below_zero_not_above_one (t : float) :
  (t <? 0)%float = true -> (1 <? t)%float = false.
Proof.
  rewrite !ltb_spec.
  change (Prim2SF 0) with (S754_zero false).
  change (Prim2SF 1) with (S754_finite false 4503599627370496 (-52)).
  destruct (Prim2SF t) as [s | s | | s m e]; try destruct s;
    cbv [SFltb SFcompare]; intros H; try discriminate H; reflexivity.
Qed.

(** X3. [ldrs_helper.tolerance_calculator] takes every tolerance above 1
    for 1 and every tolerance below 0 for 0: the budget is then 80
    clashes and 1.25, or no clash and 0. A NaN is neither above 1 nor
    below 0; it is not clamped and [int] raises on it. *)
Theorem ldrs_tolerance_calculator_clamps (t : float) :
  ((1 <? t)%float = true ->
   Ldrs.tolerance_calculator t = inr (80, 1.25%float)) /\
  ((t <? 0)%float = true ->
   Ldrs.tolerance_calculator t = inr (0, 0%float)) /\
  (PrimFloat.is_nan t = true ->
   Ldrs.tolerance_calculator t = inl IntOfNaN).
Proof.
  unfold Ldrs.tolerance_calculator. split; [ | split].
  - intros H. rewrite H. vm_compute. reflexivity.
  - intros H. rewrite (below_zero_not_above_one t H), H.
    vm_compute. reflexivity.
  - intros H. apply is_nan_spec in H.
    destruct (nan_not_lt t 1 H) as [_ H1].
    destruct (nan_not_lt t 0 H) as [H0 _].
    rewrite H1, H0, (py_int_nan _ (nan_mul t 80 H)). reflexivity.
Qed.

Lemma ldrs_tolerance_calculator_clamps_witness :
  Ldrs.tolerance_calculator 2.5 = inr (80, 1.25%float) /\
  Ldrs.tolerance_calculator (-3) = inr (0, 0%float) /\
  Ldrs.tolerance_calculator PrimFloat.nan = inl IntOfNaN.
Proof.
  split; [ | split].
  - apply (proj1 (ldrs_tolerance_calculator_clamps 2.5)). reflexivity.
  - apply (proj1 (proj2 (ldrs_tolerance_calculator_clamps (-3)))).
    reflexivity.
  - apply (proj2 (proj2 (ldrs_tolerance_calculator_clamps PrimFloat.nan))).
    reflexivity.
Defined.

(** X4. [fldrs_helper.tolerance_calculator]: a tolerance above 1 gives 32
    rotations, 80 clashes and a distance tolerance of 1; a tolerance
    below 0 gives 256 rotations, no clash and 0; a NaN makes [int]
    raise. *)
Theorem fldrs_tolerance_calculator_clamps (t : float) :
  ((1 <? t)%float = true ->
   Fldrs.tolerance_calculator t = inr (32, 80, 1%float)) /\
  ((t <? 0)%float = true ->
   Fldrs.tolerance_calculator t = inr (256, 0, 0%float)) /\
  (PrimFloat.is_nan t = true ->
   Fldrs.tolerance_calculator t = inl IntOfNaN).
Proof.
  unfold Fldrs.tolerance_calculator. split; [ | split].
  - intros H. rewrite H. vm_compute. reflexivity.
  - intros H. rewrite (below_zero_not_above_one t H), H.
    vm_compute. reflexivity.
  - intros H. apply is_nan_spec in H.
    destruct (nan_not_lt t 1 H) as [_ H1].
    destruct (nan_not_lt t 0 H) as [H0 _].
    rewrite H1, H0.
    rewrite (py_int_nan _ (mul_nan _ (-1) (nan_sub _ 256 (nan_mul t 256 H)))).
    reflexivity.
Qed.

Lemma fldrs_tolerance_calculator_clamps_witness :
  Fldrs.tolerance_calculator 2.5 = inr (32, 80, 1%float) /\
  Fldrs.tolerance_calculator (-3) = inr (256, 0, 0%float) /\
  Fldrs.tolerance_calculator PrimFloat.nan = inl IntOfNaN.
Proof.
  split; [ | split].
  - apply (proj1 (fldrs_tolerance_calculator_clamps 2.5)). reflexivity.
  - apply (proj1 (proj2 (fldrs_tolerance_calculator_clamps (-3)))).
    reflexivity.
  - apply (proj2 (proj2 (fldrs_tolerance_calculator_clamps PrimFloat.nan))).
    reflexivity.
Defined.

End BudgetFacts.

(** ** The rows that [ldrs_helper.count_clashes] leaves out *)

Module TrimFacts.

Import Ldrs Reference.

Lemma index_in_bounds {A : Type} (l : list A) (i : Z) :
  - len l <= i < len l -> exists a, index l i = Ok a /\ In a l.
Proof.
  intros H. unfold index.
  set (k := if i <? 0 then len l + i else i).
  assert (Hk : 0 <= k < len l).
  { unfold k. destruct (i <? 0) eqn:E.
    - apply Z.ltb_lt in E. lia.
    - apply Z.ltb_ge in E. lia. }
  assert (E : (k <? 0) = false) by (apply Z.ltb_ge; lia). rewrite E.
  destruct (nth_error l (Z.to_nat k)) as [a | ] eqn:En.
  - exists a. split; [reflexivity | ]. eapply nth_error_In. exact En.
  - apply nth_error_None in En. unfold len in Hk. lia.
Qed.

Lemma index_right {A : Type} (l1 l2 : list A) (k : Z) :
  0 <= k < len l2 ->
  exists a, index (l1 ++ l2) (len l1 + k) = Ok a /\ In a l2.
Proof.
  intros H. unfold index, len in *.
  assert (E : (Z.of_nat (List.length l1) + k <? 0) = false)
    by (apply Z.ltb_ge; lia).
  rewrite E, E.
  rewrite nth_error_app2 by lia.
  destruct (nth_error l2 (Z.to_nat (Z.of_nat (List.length l1) + k)
                          - List.length l1)) as [a | ] eqn:En.
  - exists a. split; [reflexivity | ]. eapply nth_error_In. exact En.
  - apply nth_error_None in En. lia.
Qed.

Lemma sites_map (arr : list atom) :
  sites arr = map (fun a => (col_element a, cols_coords a)) arr.
Proof.
  unfold sites. induction arr as [ | a arr IH]; simpl.
  - reflexivity.
  - rewrite IH. reflexivity.
Qed.

Lemma sites_app (l1 l2 : list atom) :
  sites (l1 ++ l2) = sites l1 ++ sites l2.
Proof. rewrite !sites_map. apply map_app. Qed.

Lemma sites_length (arr : list atom) :
  List.length (sites arr) = List.length arr.
Proof. rewrite sites_map. apply length_map. Qed.

Lemma trim_any_case (fragment : list atom) (case : string) :
  trim_fragment fragment case
  = (let fragment_seq := map col_resSeq fragment in
     first_r <- index fragment_seq 0 ;;
     last_r <- index fragment_seq (len fragment_seq - 1) ;;
     trim_back fragment_seq last_r (enumerate fragment_seq) (sites fragment)).
Proof.
  unfold trim_fragment.
  replace (truthy (disorder_cases 1)) with true by reflexivity.
  rewrite orb_true_r. reflexivity.
Qed.

Lemma read_ends (seq : list Z) (x : Z) :
  exists first_r,
    index (seq ++ [x]) 0 = Ok first_r /\
    index (seq ++ [x]) (len (seq ++ [x]) - 1) = Ok x.
Proof.
  destruct (index_in_bounds (seq ++ [x]) 0) as (f & Hf & _).
  { unfold len. rewrite length_app. simpl. lia. }
  exists f. split; [exact Hf | ].
  unfold index, len. rewrite length_app. simpl List.length.
  assert (E : (Z.of_nat (List.length seq + 1) - 1 <? 0) = false)
    by (apply Z.ltb_ge; lia).
  rewrite E, E.
  replace (Z.to_nat (Z.of_nat (List.length seq + 1) - 1))
    with (List.length seq) by lia.
  rewrite nth_error_app2 by lia. rewrite Nat.sub_diag. reflexivity.
Qed.

(** When no residue number is three below the last one, the loop never
    stops early: it drops one site per row and nothing is left. *)
Lemma trim_back_all (seq : list Z) (last_r : Z) :
  Forall (fun x => x <> last_r - 3) seq ->
  forall (xs : list Z) (k : nat) (frag : list (string * vec3)),
    (k + List.length xs <= List.length seq)%nat ->
    (List.length frag <= List.length xs)%nat ->
    trim_back seq last_r (enumerate_from (Z.of_nat k) xs) frag = Ok [].
Proof.
  intros Hall. induction xs as [ | x xs IH]; intros k frag Hk Hfrag.
  - destruct frag; [reflexivity | simpl in Hfrag; lia].
  - simpl in Hk. cbn [enumerate_from trim_back].
    destruct (index_in_bounds seq (len seq - 1 - Z.of_nat k - 1))
      as (prev & Hprev & Hin).
    { unfold len. lia. }
    rewrite Hprev.
    rewrite Forall_forall in Hall. pose proof (Hall prev Hin) as Hne.
    assert (E : (last_r - prev =? 3) = false) by (apply Z.eqb_neq; lia).
    rewrite E.
    replace (Z.of_nat k + 1) with (Z.of_nat (S k)) by lia.
    apply IH.
    + lia.
    + unfold but_last. rewrite removelast_firstn_len, length_firstn.
      simpl in Hfrag. lia.
Qed.

(** The loop stops on the last row numbered three below the last one:
    [st] are the numbers after that row, [rem] the sites not yet
    dropped of the rows that carry them. *)
Lemma trim_back_stop (sh st : list Z) (last_r : Z)
    (body : list (string * vec3)) :
  Forall (fun n => n <> last_r - 3) st ->
  forall (r : nat) (rem : list (string * vec3)) (d : nat) (xs : list Z),
    List.length rem = S r -> (S r + d = List.length st)%nat ->
    (S r <= List.length xs)%nat ->
    trim_back (sh ++ (last_r - 3) :: st) last_r
      (enumerate_from (Z.of_nat d) xs) (body ++ rem) = Ok body.
Proof.
  intros Hall. induction r as [ | r IH]; intros rem d xs Hrem Hd Hxs.
  - destruct rem as [ | s [ | ? ?]]; try discriminate.
    destruct xs as [ | x xs]; [simpl in Hxs; lia | ].
    cbn [enumerate_from trim_back].
    rewrite SurgeonFacts.index_middle.
    2:{ unfold len. rewrite length_app. simpl. lia. }
    replace (last_r - (last_r - 3) =? 3) with true
      by (symmetry; apply Z.eqb_eq; lia).
    unfold but_last. rewrite removelast_last. reflexivity.
  - destruct (exists_last (l := rem)) as (rem' & s & ->).
    { intros ->. discriminate. }
    rewrite length_app in Hrem. simpl in Hrem.
    destruct xs as [ | x xs]; [simpl in Hxs; lia | ].
    cbn [enumerate_from trim_back].
    destruct (index_right (sh ++ [last_r - 3]) st (Z.of_nat r))
      as (prev & Hprev & Hin).
    { unfold len. lia. }
    rewrite <- app_assoc in Hprev. simpl app in Hprev.
    replace (len (sh ++ (last_r - 3) :: st) - 1 - Z.of_nat d - 1)
      with (len (sh ++ [last_r - 3]) + Z.of_nat r).
    2:{ unfold len. rewrite !length_app. simpl. lia. }
    rewrite Hprev.
    rewrite Forall_forall in Hall. pose proof (Hall prev Hin) as Hne.
    assert (E : (last_r - prev =? 3) = false) by (apply Z.eqb_neq; lia).
    rewrite E.
    unfold but_last. rewrite app_assoc, removelast_last.
    replace (Z.of_nat d + 1) with (Z.of_nat (S d)) by lia.
    apply IH.
    + lia.
    + lia.
    + simpl in Hxs. lia.
Qed.

(** The sites kept of a fragment that has a row numbered three below
    its last row: those up to the last such row, whatever the case. *)
Lemma trim_fragment_long (h t : list atom) (b x : atom) (case : string) :
  col_resSeq b = col_resSeq x - 3 ->
  Forall (fun a => col_resSeq a <> col_resSeq x - 3) t ->
  trim_fragment ((h ++ [b]) ++ t ++ [x]) case = Ok (sites (h ++ [b])).
Proof.
  intros Hb Hall. rewrite trim_any_case. cbv zeta.
  rewrite app_assoc, map_app. cbn [map].
  destruct (read_ends (map col_resSeq ((h ++ [b]) ++ t)) (col_resSeq x))
    as (first_r & Hf & Hl).
  rewrite Hf. cbn [bind]. rewrite Hl. cbn [bind].
  rewrite sites_app, sites_app.
  rewrite !map_app. cbn [map]. rewrite Hb.
  rewrite <- !app_assoc. cbn [app].
  unfold enumerate.
  assert (Hst : Forall (fun n => n <> col_resSeq x - 3)
                  (map col_resSeq t ++ [col_resSeq x])).
  { apply Forall_app. split.
    - apply Forall_map. exact Hall.
    - constructor; [lia | constructor]. }
  pose proof (trim_back_stop (map col_resSeq h)
                (map col_resSeq t ++ [col_resSeq x]) (col_resSeq x)
                (sites (h ++ [b])) Hst (List.length t)
                (sites t ++ sites [x]) 0%nat
                (map col_resSeq h ++
                 (col_resSeq x - 3) :: map col_resSeq t ++ [col_resSeq x]))
    as Ht.
  change (Z.of_nat 0) with 0 in Ht.
  apply Ht.
  - rewrite length_app, !sites_length. simpl. lia.
  - rewrite length_app, length_map. simpl. lia.
  - rewrite !length_app. simpl. rewrite !length_app, !length_map. simpl. lia.
Qed.

Section Count.

Variable vdW : string -> option float.
Variable max_clash : Z.
Variable tolerance : float.

Lemma outer_loop_no_fragment (parent : list (string * vec3)) (n : Z) :
  outer_loop vdW max_clash tolerance parent [] n = Ok (Running n).
Proof.
  induction parent as [ | s1 parent IH]; simpl.
  - reflexivity.
  - exact IH.
Qed.

(** X5. A fragment in which no row is numbered three below its last row
    (a fragment of three residues or fewer, counted by number) is
    trimmed to nothing, so [count_clashes] returns the count 0 for it
    whatever the parent, the case, the budget and the radius table:
    such a fragment always passes the clash check. *)
Theorem count_clashes_short_fragment (body : list atom) (x : atom)
    (parent : list atom) (case : string) :
  Forall (fun a => col_resSeq a <> col_resSeq x - 3) (body ++ [x]) ->
  count_clashes vdW max_clash tolerance (body ++ [x]) parent case
  = Ok (PyInt 0, body ++ [x]).
Proof.
  intros Hall. unfold count_clashes. rewrite trim_any_case.
  cbv zeta. rewrite map_app. cbn [map].
  destruct (read_ends (map col_resSeq body) (col_resSeq x))
    as (first_r & Hf & Hl).
  rewrite Hf. cbn [bind]. rewrite Hl. cbn [bind].
  unfold enumerate.
  assert (Hseq : Forall (fun n => n <> col_resSeq x - 3)
                   (map col_resSeq body ++ [col_resSeq x])).
  { change [col_resSeq x] with (map col_resSeq [x]).
    rewrite <- map_app. apply Forall_map. exact Hall. }
  pose proof (trim_back_all _ (col_resSeq x) Hseq
                (map col_resSeq body ++ [col_resSeq x]) 0%nat
                (sites (body ++ [x]))) as Ht.
  change (Z.of_nat 0) with 0 in Ht. rewrite Ht.
  - cbn [bind]. rewrite outer_loop_no_fragment. reflexivity.
  - simpl. lia.
  - rewrite sites_length, !length_app, length_map. simpl. lia.
Qed.

(** X6. On a fragment that has a row numbered three below its last row,
    the count is taken against the rows up to the last such row only,
    in every case: with known radii and a total within the budget,
    [count_clashes] returns the number of clashing pairs between the
    parent and those rows. *)
Theorem count_clashes_counts_kept_rows (h t : list atom) (b x : atom)
    (parent : list atom) (case : string) :
  col_resSeq b = col_resSeq x - 3 ->
  Forall (fun a => col_resSeq a <> col_resSeq x - 3) t ->
  known vdW (sites parent) -> known vdW (sites (h ++ [b])) ->
  clashing_pairs vdW tolerance (sites parent) (sites (h ++ [b]))
  <= max_clash ->
  count_clashes vdW max_clash tolerance ((h ++ [b]) ++ t ++ [x]) parent case
  = Ok (PyInt (clashing_pairs vdW tolerance (sites parent)
                 (sites (h ++ [b]))),
        (h ++ [b]) ++ t ++ [x]).
Proof.
  intros Hb Hall Hp Hf Hle.
  apply ClashFacts.count_clashes_within_budget; try assumption.
  apply trim_fragment_long; assumption.
Qed.

End Count.

Lemma count_clashes_counts_kept_rows_witness :
  count_clashes Samples.radii 5 0.4
    (([] ++ [Samples.bb "CA" 1 0 0 0]) ++
     [Samples.bb "CA" 2 10 0 0; Samples.bb "CA" 3 20 0 0] ++
     [Samples.bb "CA" 4 30 0 0])
    Samples.near_parent "C-IDR"
  = Ok (PyInt (clashing_pairs Samples.radii 0.4 (sites Samples.near_parent)
                 (sites ([] ++ [Samples.bb "CA" 1 0 0 0]))),
        ([] ++ [Samples.bb "CA" 1 0 0 0]) ++
        [Samples.bb "CA" 2 10 0 0; Samples.bb "CA" 3 20 0 0] ++
        [Samples.bb "CA" 4 30 0 0]).
Proof.
  apply (count_clashes_counts_kept_rows Samples.radii 5 0.4 []
           [Samples.bb "CA" 2 10 0 0; Samples.bb "CA" 3 20 0 0]
           (Samples.bb "CA" 1 0 0 0) (Samples.bb "CA" 4 30 0 0)).
  - reflexivity.
  - repeat constructor; simpl; lia.
  - repeat constructor; discriminate.
  - repeat constructor; discriminate.
  - vm_compute. discriminate.
Defined.

Lemma count_clashes_short_fragment_witness :
  count_clashes Samples.radii 0 0.4
    (firstn 2 Samples.four_residues ++ [Samples.bb "CA" 3 20 0 0])
    Samples.near_parent "N-IDR"
  = Ok (PyInt 0,
        firstn 2 Samples.four_residues ++ [Samples.bb "CA" 3 20 0 0]).
Proof.
  apply (count_clashes_short_fragment Samples.radii 0 0.4
           (firstn 2 Samples.four_residues) (Samples.bb "CA" 3 20 0 0)).
  repeat constructor; simpl; lia.
Defined.

End TrimFacts.

(** ** [fldrs_helper.py]: the count and the retry loop *)

Module FldrsFacts.

Import Ldrs Fldrs Reference.

Lemma np_delete_last {A : Type} (l : list A) (a : A) (j : Z) :
  j = len l -> np_delete (l ++ [a]) j = Ok l.
Proof.
  intros ->. unfold np_delete, len. rewrite length_app. simpl List.length.
  assert (E : (Z.of_nat (List.length l) <? 0) = false)
    by (apply Z.ltb_ge; lia).
  rewrite E, E.
  assert (E' : (Z.of_nat (List.length l + 1) <=? Z.of_nat (List.length l))
               = false) by (apply Z.leb_gt; lia).
  rewrite E'. simpl orb. cbv iota. rewrite Nat2Z.id.
  rewrite firstn_app, Nat.sub_diag, firstn_all. simpl firstn.
  rewrite skipn_all2 by (rewrite length_app; simpl; lia).
  rewrite !app_nil_r. reflexivity.
Qed.

(** The N-IDR loop on what is left of a last residue numbered [m]. *)
Lemma trim_last_loop (sb : list Z) (b m : Z) (body : list (string * vec3)) :
  b <> m ->
  forall (r : nat) (rem : list (string * vec3)) (d : nat) (xs : list Z),
    List.length rem = S r -> (S r <= List.length xs)%nat ->
    List.length body = S (List.length sb) ->
    trim_last_residue ((sb ++ [b]) ++ repeat m (S r + d))
      (enumerate_from (Z.of_nat d) xs) (body ++ rem) = Ok body.
Proof.
  intros Hb. induction r as [ | r IH]; intros rem d xs Hrem Hxs Hbody.
  - destruct rem as [ | a [ | ? ?]]; try discriminate.
    destruct xs as [ | x xs]; [simpl in Hxs; lia | ].
    pose proof (SurgeonFacts.len_run sb b m (1 + d)) as Hlen.
    remember ((sb ++ [b]) ++ repeat m (1 + d)) as seq eqn:Eseq.
    assert (Hcurr : index seq (len seq - 1 - Z.of_nat d) = Ok m).
    { subst seq. apply SurgeonFacts.read_run. lia. }
    assert (Hprev : index seq (len seq - 1 - Z.of_nat d - 1) = Ok b).
    { subst seq. apply SurgeonFacts.read_before_run. lia. }
    simpl enumerate_from. cbn [trim_last_residue].
    rewrite Hcurr. cbn [bind]. rewrite Hprev. cbn [bind].
    rewrite np_delete_last by (unfold len in *; lia). cbn [bind].
    assert (E : (b =? m) = false) by lia. rewrite E. reflexivity.
  - destruct (exists_last (l := rem)) as (rem' & a & ->).
    { intros ->. discriminate. }
    rewrite length_app in Hrem. simpl in Hrem.
    destruct xs as [ | x xs]; [simpl in Hxs; lia | ].
    pose proof (SurgeonFacts.len_run sb b m (S (S r) + d)) as Hlen.
    assert (IH' := IH rem' (S d) xs).
    replace (S r + S d)%nat with (S (S r) + d)%nat in IH' by lia.
    remember ((sb ++ [b]) ++ repeat m (S (S r) + d)) as seq eqn:Eseq.
    assert (Hcurr : index seq (len seq - 1 - Z.of_nat d) = Ok m).
    { subst seq. apply SurgeonFacts.read_run. lia. }
    assert (Hprev : index seq (len seq - 1 - Z.of_nat d - 1) = Ok m).
    { subst seq. apply SurgeonFacts.read_run. lia. }
    simpl enumerate_from. cbn [trim_last_residue].
    rewrite Hcurr. cbn [bind]. rewrite Hprev. cbn [bind].
    rewrite app_assoc.
    rewrite np_delete_last
      by (unfold len in *; rewrite length_app; lia).
    cbn [bind]. rewrite Z.eqb_refl. cbn [negb].
    replace (Z.of_nat d + 1) with (Z.of_nat (S d)) by lia.
    apply IH'; simpl in *; lia.
Qed.

(** X7. In [fldrs_helper.py] the N-terminal trimming takes exactly the
    last residue of the fragment out of the count, when the fragment
    has at least two residues. *)
Theorem fldrs_trim_n_idr (body lastres : list atom) (m : Z) :
  one_residue m lastres ->
  last (seq_of body) m <> m ->
  Fldrs.trim_fragment (body ++ lastres) (disorder_cases 0)
  = Ok (sites body).
Proof.
  intros [Hne Hall] Hlast.
  destruct (SurgeonFacts.last_differs _ _ Hlast) as (sb & b & Esb & Hb).
  change (Fldrs.trim_fragment (body ++ lastres) (disorder_cases 0))
    with (trim_last_residue (seq_of (body ++ lastres))
            (enumerate (seq_of (body ++ lastres))) (sites (body ++ lastres))).
  rewrite SurgeonFacts.seq_of_app, Esb,
    (SurgeonFacts.seq_of_one_residue m lastres Hall).
  rewrite TrimFacts.sites_app.
  destruct lastres as [ | a0 lastres']; [contradiction Hne; reflexivity | ].
  unfold enumerate.
  replace (List.length (a0 :: lastres')) with (S (List.length lastres') + 0)%nat
    by (simpl; lia).
  apply (trim_last_loop sb b m (sites body) Hb (List.length lastres')
           (sites (a0 :: lastres')) 0%nat).
  - rewrite TrimFacts.sites_length. reflexivity.
  - rewrite length_app, repeat_length. lia.
  - rewrite TrimFacts.sites_length.
    assert (El : List.length (seq_of body) = List.length (sb ++ [b]))
      by (rewrite Esb; reflexivity).
    unfold seq_of in El. rewrite length_map, length_app in El. simpl in El.
    lia.
Qed.

Lemma fldrs_trim_n_idr_witness :
  Fldrs.trim_fragment
    ([Samples.row "IDR" 1; Samples.row "IDR" 1] ++ [Samples.row "IDR" 2])
    (disorder_cases 0)
  = Ok (sites [Samples.row "IDR" 1; Samples.row "IDR" 1]).
Proof.
  apply (fldrs_trim_n_idr [Samples.row "IDR" 1; Samples.row "IDR" 1]
           [Samples.row "IDR" 2] 2).
  - split; [discriminate | repeat constructor].
  - simpl. lia.
Defined.

Section Count.

Variable vdW : string -> option float.
Variable max_clash : Z.
Variable tolerance : float.

(** X8. With a budget of no clash at all ([max_clash <= 0], what a
    tolerance of 0 gives), [fldrs_helper.count_clashes] returns [True]
    on the first pair it looks at, whether the pair clashes or not:
    every fragment is rejected as soon as the parent has an atom and a
    site of the fragment is left to compare. *)
Theorem fldrs_count_clashes_no_budget (p : atom) (parent fragment : list atom)
    (case : string) (s2 : string * vec3) (frag : list (string * vec3)) :
  max_clash <= 0 ->
  Fldrs.trim_fragment fragment case = Ok (s2 :: frag) ->
  vdW (col_element p) <> None -> vdW (fst s2) <> None ->
  Fldrs.count_clashes vdW max_clash tolerance (p :: parent) fragment case
  = Ok (PyBool true).
Proof.
  intros Hmax Htrim Hp Hs. unfold Fldrs.count_clashes.
  rewrite Htrim. cbn [bind sites map combine Fldrs.outer_loop Fldrs.inner_loop].
  unfold Fldrs.pair_step, radius. cbn [fst snd].
  destruct (vdW (col_element p)); [ | contradiction].
  destruct (vdW (fst s2)); [ | contradiction].
  cbn [bind].
  assert (E : (0 >=? max_clash) = true) by lia. rewrite E. reflexivity.
Qed.

End Count.

Lemma fldrs_count_clashes_no_budget_witness :
  Fldrs.count_clashes Samples.radii 0 0.4
    (Samples.bb "CA" 9 0 90 0 :: []) Samples.four_residues (disorder_cases 1)
  = Ok (PyBool true).
Proof.
  apply (fldrs_count_clashes_no_budget Samples.radii 0 0.4
           (Samples.bb "CA" 9 0 90 0) [] Samples.four_residues
           (disorder_cases 1) ("C", V3 0 0 0)
           (tl (sites Samples.four_residues))).
  - lia.
  - reflexivity.
  - discriminate.
  - discriminate.
Defined.

End FldrsFacts.

(** ** [rotator] and [clash_and_rotate_helper]: bounds and errors *)

Module RetryFacts.

Import Ldrs Fldrs.

Section Loop.

Variable vdW : string -> option float.
Variable max_clash : Z.
Variable tolerance : float.
Variable np_cos np_sin cell : float -> float.
Variable uniform : nat -> float.

Local Abbreviation helper :=
  (clash_and_rotate_helper vdW max_clash tolerance np_cos np_sin cell uniform).
Local Abbreviation loop :=
  (rotate_loop vdW max_clash tolerance np_cos np_sin cell uniform).

Lemma rotate_loop_bound (parent : list atom) (case : string)
    (max_rotation : Z) (fuel : nat) :
  forall (n : value) (fragment : list atom) (counter : Z) (draws : nat),
    match loop fuel parent case max_rotation n fragment counter draws with
    | Ok (_, _, draws') => (draws <= draws' <= draws + fuel)%nat
    | Raise _ => True
    end.
Proof.
  induction fuel as [ | fuel IH]; intros n fragment counter draws;
    cbn [rotate_loop].
  - destruct (eq_True n && (counter <=? max_rotation)); lia.
  - destruct (eq_True n && (counter <=? max_rotation)); [ | lia].
    destruct (rotator np_cos np_sin cell (uniform draws) fragment case)
      as [f' | e]; [ | exact I].
    cbn [bind].
    destruct (Fldrs.count_clashes vdW max_clash tolerance parent f' case)
      as [n' | e]; [ | exact I].
    cbn [bind].
    specialize (IH n' f' (counter + 1) (S draws)).
    destruct (loop fuel parent case max_rotation n' f' (counter + 1) (S draws))
      as [[[v f''] d'] | e]; [lia | exact I].
Qed.

(** X9. Whatever the fragment, the parent and the draws, a call of
    [clash_and_rotate_helper] that returns has rotated the fragment at
    least once and at most [max_rotation + 1] times (once when
    [max_rotation] is negative). *)
Theorem helper_rotation_bound (frag parent : list atom) (case : string)
    (max_rotation : Z) :
  match helper frag parent case max_rotation with
  | Ok (_, _, draws) => (1 <= draws <= 1 + Z.to_nat max_rotation)%nat
  | Raise _ => True
  end.
Proof.
  unfold clash_and_rotate_helper.
  destruct (rotator np_cos np_sin cell (uniform 0%nat) frag case)
    as [f1 | e]; [ | exact I].
  cbn [bind].
  destruct (Fldrs.count_clashes vdW max_clash tolerance parent f1 case)
    as [n1 | e]; [ | exact I].
  cbn [bind].
  exact (rotate_loop_bound parent case max_rotation (Z.to_nat max_rotation)
           n1 f1 1 1%nat).
Qed.

(** X10. [rotator] binds its pivot only in the N-terminal and C-terminal
    cases: for any other case, Break-IDR included, it raises
    [UnboundLocalError], and so does [clash_and_rotate_helper] before
    any clash is counted. *)
Theorem helper_needs_a_terminal_case (angle : float)
    (frag parent : list atom) (case : string) (max_rotation : Z) :
  String.eqb case (disorder_cases 0) = false ->
  String.eqb case (disorder_cases 2) = false ->
  rotator np_cos np_sin cell angle frag case = Raise UnboundLocalError /\
  helper frag parent case max_rotation = Raise UnboundLocalError.
Proof.
  intros H0 H2.
  assert (E : forall a, rotator np_cos np_sin cell a frag case
                        = Raise UnboundLocalError).
  { intros a. unfold rotator, pivot_index. rewrite H0, H2. reflexivity. }
  split.
  - apply E.
  - unfold clash_and_rotate_helper. rewrite E. reflexivity.
Qed.

End Loop.

Lemma helper_needs_a_terminal_case_witness :
  rotator Samples.cos_at_zero Samples.sin_at_zero Samples.exact_cell 0
    Samples.two_residues (disorder_cases 1) = Raise UnboundLocalError /\
  clash_and_rotate_helper Samples.radii 5 0.4 Samples.cos_at_zero
    Samples.sin_at_zero Samples.exact_cell Samples.draws_zero
    Samples.two_residues Samples.near_parent (disorder_cases 1) 3
  = Raise UnboundLocalError.
Proof.
  apply (helper_needs_a_terminal_case Samples.radii 5 0.4 Samples.cos_at_zero
           Samples.sin_at_zero Samples.exact_cell Samples.draws_zero 0
           Samples.two_residues Samples.near_parent (disorder_cases 1) 3).
  - reflexivity.
  - reflexivity.
Defined.

(** The first orientation of [two_residues] against a parent far away
    has no clash. *)
Lemma helper_stops_on_count_witness :
  clash_and_rotate_helper Samples.radii 5 0.4 Samples.cos_at_zero
    Samples.sin_at_zero Samples.exact_cell Samples.draws_zero
    Samples.two_residues [Samples.bb "CA" 9 0 90 0] (disorder_cases 0) 3
  = Ok (PyInt 0, Samples.two_residues, 1%nat).
Proof.
  apply (RotateFacts.helper_stops_on_count Samples.radii 5 0.4
           Samples.cos_at_zero Samples.sin_at_zero Samples.exact_cell
           Samples.draws_zero Samples.two_residues
           [Samples.bb "CA" 9 0 90 0] Samples.two_residues
           (disorder_cases 0) 3 0).
  - vm_compute. reflexivity.
  - vm_compute. reflexivity.
  - discriminate.
Defined.

End RetryFacts.

(** ** [psurgeon]: serials and edge cases *)

Module SurgeonEdgeFacts.

Import Ldrs Reference.

Lemma index_raises_IndexError {A : Type} (l : list A) (i : Z) (e : exn) :
  index l i = Raise e -> e = IndexError.
Proof.
  unfold index.
  destruct ((if i <? 0 then len l + i else i) <? 0).
  - intros H. inversion H. reflexivity.
  - destruct (nth_error l (Z.to_nat (if i <? 0 then len l + i else i))).
    + discriminate.
    + intros H. inversion H. reflexivity.
Qed.

Lemma index_past_end {A : Type} (l : list A) (i : Z) :
  len l <= i -> index l i = Raise IndexError.
Proof.
  intros H. unfold index, len in *.
  assert (E : (i <? 0) = false) by (apply Z.ltb_ge; lia).
  rewrite E, E.
  destruct (nth_error l (Z.to_nat i)) eqn:En; [ | reflexivity].
  assert (Z.to_nat i < List.length l)%nat
    by (apply nth_error_Some; rewrite En; discriminate).
  lia.
Qed.

(** Reading a run of one number, from either end. *)
Lemma index_repeat (n : Z) (k : nat) (i : Z) :
  - Z.of_nat k <= i < Z.of_nat k -> index (repeat n k) i = Ok n.
Proof.
  intros H.
  destruct (TrimFacts.index_in_bounds (repeat n k) i) as (a & Ha & Hin).
  - unfold len. rewrite repeat_length. exact H.
  - apply repeat_spec in Hin. subst a. exact Ha.
Qed.

(** *** Serial numbers *)

Lemma reserial_serials (l : list atom) :
  forall i, map col_serial (reserial i l) = range_from (List.length l) i 1.
Proof.
  induction l as [ | a l IH]; intros i; simpl.
  - reflexivity.
  - rewrite IH. reflexivity.
Qed.

Lemma reserial_chain (l : list atom) :
  forall i,
    Forall (fun a => col_chainID a = "A" /\ col_segid a = "A") (reserial i l).
Proof.
  induction l as [ | a l IH]; intros i; simpl.
  - constructor.
  - constructor; [split; reflexivity | apply IH].
Qed.

Lemma reserial_length (l : list atom) :
  forall i, List.length (reserial i l) = List.length l.
Proof.
  induction l as [ | a l IH]; intros i; simpl.
  - reflexivity.
  - rewrite IH. reflexivity.
Qed.

Lemma psurgeon_is_reserial (idp_struc : donor) (fld_struc : list atom)
    (case : string) (ranges : Z * Z) (r : list atom) :
  psurgeon idp_struc fld_struc case ranges = Ok r ->
  exists arr, r = reserial 1 arr.
Proof.
  unfold psurgeon.
  match goal with
  | |- bind ?m _ = _ -> _ => destruct m as [arr | e]
  end; cbn [bind]; intros H; inversion H.
  exists arr. reflexivity.
Qed.

(** X12. Whatever the case and the inputs, an array that [psurgeon]
    returns carries the serials 1, 2, ..., N in order, and the chain and
    segment identifier "A" on every row. *)
Theorem psurgeon_serials (idp_struc : donor) (fld_struc : list atom)
    (case : string) (ranges : Z * Z) (r : list atom) :
  psurgeon idp_struc fld_struc case ranges = Ok r ->
  map col_serial r = range_from (List.length r) 1 1 /\
  Forall (fun a => col_chainID a = "A" /\ col_segid a = "A") r.
Proof.
  intros H. destruct (psurgeon_is_reserial _ _ _ _ _ H) as (arr & ->).
  split.
  - rewrite reserial_serials, reserial_length. reflexivity.
  - apply reserial_chain.
Qed.

Lemma psurgeon_serials_witness :
  map col_serial (reserial 1 [Samples.row "IDR" 1; Samples.row "FLD" 11])
  = range_from
      (List.length (reserial 1 [Samples.row "IDR" 1; Samples.row "FLD" 11]))
      1 1 /\
  Forall (fun a => col_chainID a = "A" /\ col_segid a = "A")
         (reserial 1 [Samples.row "IDR" 1; Samples.row "FLD" 11]).
Proof.
  apply (psurgeon_serials (One Samples.idr_1_2) Samples.fld_10_11
           (disorder_cases 0) (0, 0)).
  reflexivity.
Defined.

(** X13. A case that is none of "N-IDR", "Break-IDR", "C-IDR" and
    "N-IDRC-IDR" leaves [new_struc_arr] unbound: [psurgeon] raises
    [UnboundLocalError] on every input. *)
Theorem psurgeon_unknown_case (idp_struc : donor) (fld_struc : list atom)
    (case : string) (ranges : Z * Z) :
  String.eqb case "N-IDR" = false ->
  String.eqb case "Break-IDR" = false ->
  String.eqb case "C-IDR" = false ->
  String.eqb case "N-IDRC-IDR" = false ->
  psurgeon idp_struc fld_struc case ranges = Raise UnboundLocalError.
Proof.
  intros H0 H1 H2 H3. unfold psurgeon.
  change (disorder_cases 0) with "N-IDR".
  change (disorder_cases 1) with "Break-IDR".
  change (disorder_cases 2) with "C-IDR".
  change (String.append "N-IDR" "C-IDR") with "N-IDRC-IDR".
  rewrite H0, H1, H2, H3. reflexivity.
Qed.

Lemma psurgeon_unknown_case_witness :
  psurgeon (One Samples.idr_1_2) Samples.fld_10_11 "n-idr" (0, 0)
  = Raise UnboundLocalError.
Proof.
  apply psurgeon_unknown_case; reflexivity.
Defined.


(** *** A folded structure of one residue *)

Lemma drop_last_total (seq : list Z) :
  forall (xs : list Z) (k : nat) (arr : list atom),
    (k + List.length xs <= List.length seq)%nat ->
    exists arr',
      drop_last_residue seq (enumerate_from (Z.of_nat k) xs) arr = Ok arr'.
Proof.
  induction xs as [ | x xs IH]; intros k arr Hk.
  - exists arr. reflexivity.
  - simpl in Hk. cbn [enumerate_from drop_last_residue].
    destruct (TrimFacts.index_in_bounds seq (len seq - 1 - Z.of_nat k))
      as (curr & Hcurr & _); [unfold len; lia | ].
    destruct (TrimFacts.index_in_bounds seq (len seq - 1 - Z.of_nat k - 1))
      as (prev & Hprev & _); [unfold len; lia | ].
    rewrite Hcurr. cbn [bind]. rewrite Hprev. cbn [bind].
    destruct (negb (prev =? curr)).
    + eexists. reflexivity.
    + replace (Z.of_nat k + 1) with (Z.of_nat (S k)) by lia.
      apply IH. lia.
Qed.

Lemma drop_first_raises (seq : list Z) (steps : list (Z * Z)) :
  forall (arr : list atom) (e : exn),
    drop_first_residue seq steps arr = Raise e -> e = IndexError.
Proof.
  induction steps as [ | [i x] steps IH]; intros arr e; cbn [drop_first_residue].
  - discriminate.
  - destruct (index seq i) as [curr | e1] eqn:E1; cbn [bind].
    + destruct (index seq (i + 1)) as [next | e2] eqn:E2; cbn [bind].
      * destruct (negb (next =? curr)); [discriminate | apply IH].
      * intros H. inversion H; subst.
        exact (index_raises_IndexError _ _ _ E2).
    + intros H. inversion H; subst.
      exact (index_raises_IndexError _ _ _ E1).
Qed.

Lemma drop_first_one_residue (n : Z) (k : nat) :
  forall (xs : list Z) (d : nat) (arr : list atom),
    xs <> [] -> (d + List.length xs = k)%nat ->
    drop_first_residue (repeat n k) (enumerate_from (Z.of_nat d) xs) arr
    = Raise IndexError.
Proof.
  induction xs as [ | x xs IH]; intros d arr Hne Hk.
  - contradiction Hne. reflexivity.
  - simpl in Hk. cbn [enumerate_from drop_first_residue].
    rewrite index_repeat by lia. cbn [bind].
    destruct xs as [ | x' xs'].
    + rewrite index_past_end; [reflexivity | ].
      unfold len. rewrite repeat_length. simpl in Hk. lia.
    + rewrite index_repeat by (simpl in Hk; lia). cbn [bind].
      rewrite Z.eqb_refl. cbn [negb].
      replace (Z.of_nat d + 1) with (Z.of_nat (S d)) by lia.
      apply IH; [discriminate | simpl in *; lia].
Qed.

Lemma drop_last_one_residue (n : Z) (k : nat) :
  forall (xs : list Z) (d : nat) (arr : list atom),
    (d + List.length xs = k)%nat ->
    (List.length arr <= List.length xs)%nat ->
    drop_last_residue (repeat n k) (enumerate_from (Z.of_nat d) xs) arr
    = Ok [].
Proof.
  induction xs as [ | x xs IH]; intros d arr Hk Harr.
  - destruct arr; [reflexivity | simpl in Harr; lia].
  - simpl in Hk. cbn [enumerate_from drop_last_residue].
    rewrite index_repeat
      by (unfold len; rewrite repeat_length; lia).
    cbn [bind].
    rewrite index_repeat
      by (unfold len; rewrite repeat_length; lia).
    cbn [bind]. rewrite Z.eqb_refl. cbn [negb].
    replace (Z.of_nat d + 1) with (Z.of_nat (S d)) by lia.
    apply IH; [lia | ].
    unfold but_last. rewrite removelast_firstn_len, length_firstn.
    simpl in Harr. lia.
Qed.

(** X14. A folded structure of a single residue cannot receive a
    terminal graft: in the N-terminal and in the C-terminal case
    [psurgeon] raises [IndexError], whatever the fragment. *)
Theorem psurgeon_one_residue_folded (idr fld : list atom) (n : Z)
    (ranges : Z * Z) :
  one_residue n fld ->
  psurgeon (One idr) fld (disorder_cases 0) ranges = Raise IndexError /\
  psurgeon (One idr) fld (disorder_cases 2) ranges = Raise IndexError.
Proof.
  intros [Hne Hall].
  pose proof (SurgeonFacts.seq_of_one_residue n fld Hall) as Eseq.
  assert (Hlen : List.length (seq_of fld) = List.length fld)
    by apply length_map.
  split.
  - change (psurgeon (One idr) fld (disorder_cases 0) ranges)
      with (a <- graft_n idr fld ;; Ok (reserial 1 a)).
    unfold graft_n, enumerate.
    destruct (drop_last_total (seq_of idr) (seq_of idr) 0%nat idr)
      as (idr' & E); [simpl; lia | ].
    change (Z.of_nat 0) with 0 in E. rewrite E. cbn [bind].
    pose proof (drop_first_one_residue n (List.length fld)
                  (seq_of fld) 0%nat fld) as Hf.
    change (Z.of_nat 0) with 0 in Hf. rewrite <- Eseq in Hf.
    rewrite Hf; [reflexivity | | simpl; lia].
    destruct fld; [contradiction Hne; reflexivity | discriminate].
  - change (psurgeon (One idr) fld (disorder_cases 2) ranges)
      with (a <- graft_c fld idr ;; Ok (reserial 1 a)).
    unfold graft_c, enumerate.
    pose proof (drop_last_one_residue n (List.length fld)
                  (seq_of fld) 0%nat fld) as Hf.
    change (Z.of_nat 0) with 0 in Hf. rewrite <- Eseq in Hf.
    rewrite Hf by (simpl; lia). cbn [bind].
    destruct (drop_first_residue (seq_of idr) (enumerate_from 0 (seq_of idr))
                idr) as [idr' | e] eqn:E.
    + reflexivity.
    + rewrite (drop_first_raises _ _ _ _ E). reflexivity.
Qed.

Lemma psurgeon_one_residue_folded_witness :
  psurgeon (One Samples.idr_1_2) [Samples.row "FLD" 10; Samples.row "FLD" 10]
    (disorder_cases 0) (0, 0) = Raise IndexError /\
  psurgeon (One Samples.idr_1_2) [Samples.row "FLD" 10; Samples.row "FLD" 10]
    (disorder_cases 2) (0, 0) = Raise IndexError.
Proof.
  apply (psurgeon_one_residue_folded Samples.idr_1_2
           [Samples.row "FLD" 10; Samples.row "FLD" 10] 10 (0, 0)).
  split; [discriminate | repeat constructor].
Defined.

(** *** A break that the folded structure does not have *)

(** X15. In the Break-IDR case, when no row of the folded structure is
    numbered [first + lower - 1] or [first + upper], the place to insert
    at is never bound: [psurgeon] raises [UnboundLocalError] on a
    fragment of at least two residues. *)
Theorem psurgeon_break_not_found (ifirst itail fld : list atom)
    (i1 first : Z) (ranges : Z * Z) :
  one_residue i1 ifirst -> hd i1 (seq_of itail) <> i1 ->
  index (seq_of fld) 0 = Ok first ->
  Forall (fun a => at_break (first + fst ranges - 1) (first + snd ranges) a
                   = false) fld ->
  psurgeon (One (ifirst ++ itail)) fld (disorder_cases 1) ranges
  = Raise UnboundLocalError.
Proof.
  intros Hi Hit Hfirst Hnone.
  change (psurgeon (One (ifirst ++ itail)) fld (disorder_cases 1) ranges)
    with (a <- graft_break (ifirst ++ itail) fld ranges ;;
          Ok (reserial 1 a)).
  unfold graft_break.
  rewrite (SurgeonFacts.drop_first_residue_try_shape ifirst itail i1 Hi Hit).
  cbn [bind]. rewrite Hfirst. cbn [bind]. unfold enumerate.
  rewrite (SurgeonFacts.split_at_break_none _ _ fld Hnone 0 []).
  destruct (SurgeonFacts.hd_differs _ _ Hit) as (x & st & Est & _).
  destruct itail as [ | ib itail']; [discriminate | ].
  reflexivity.
Qed.

Lemma psurgeon_break_not_found_witness :
  psurgeon (One ([Samples.row "IDR" 1] ++
                 [Samples.row "IDR" 2; Samples.row "IDR" 3]))
    Samples.fld_1_6 (disorder_cases 1) (8, 9)
  = Raise UnboundLocalError.
Proof.
  apply (psurgeon_break_not_found [Samples.row "IDR" 1]
           [Samples.row "IDR" 2; Samples.row "IDR" 3]
           Samples.fld_1_6 1 1 (8, 9)).
  - split; [discriminate | repeat constructor].
  - simpl. lia.
  - reflexivity.
  - repeat constructor.
Defined.

End SurgeonEdgeFacts.

(** ** [sliding_window]: what is counted and what is skipped *)

Module ScanFacts.

Import Ldrs Reference.

Section Scan.

Variable vdW : string -> option float.
Variable np_arccos np_sin cell : float -> float.
Variable max_clash : Z.
Variable tolerance : float.

Local Abbreviation junction :=
  (Ldrs.junction vdW np_arccos np_sin cell max_clash tolerance).
Local Abbreviation offsets :=
  (Ldrs.offsets vdW np_arccos np_sin cell max_clash tolerance).
Local Abbreviation candidates :=
  (Ldrs.candidates vdW np_arccos np_sin cell max_clash tolerance).
Local Abbreviation sliding_window :=
  (Ldrs.sliding_window vdW np_arccos np_sin cell max_clash tolerance).

Ltac step_bind :=
  match goal with
  | |- bind ?m _ = _ -> _ => destruct m; cbn [bind]; [ | discriminate]
  end.

Lemma junction_lead (idr_resseq idr_res : list Z) (idr_CA idr_O : list vec3)
    (cand i : Z) (curr_c next_n next_ca : vec3) (w w' : window) :
  junction idr_resseq idr_res idr_CA idr_O cand i curr_c next_n next_ca w
  = Ok w' ->
  lead w' = lead w.
Proof.
  unfold Ldrs.junction. do 3 step_bind.
  match goal with
  | |- (if ?c then _ else _) = _ -> _ => destruct c
  end.
  - cbv zeta. do 2 step_bind.
    match goal with
    | |- match ?o with Some _ => _ | None => _ end = _ -> _ =>
        destruct o; [ | discriminate]
    end.
    step_bind. step_bind.
    intros H. inversion H. unfold lead, len. cbn [matches written].
    rewrite length_app. simpl. lia.
  - intros H. inversion H. reflexivity.
Qed.

Lemma offsets_lead (idr_resseq idr_res : list Z) (idr_CA idr_O : list vec3)
    (nterm_N nterm_CA : list vec3) (cand : Z) (steps : list (Z * vec3)) :
  forall w,
    lead (fst (offsets idr_resseq idr_res idr_CA idr_O nterm_N nterm_CA
                       cand steps w)) = lead w.
Proof.
  induction steps as [ | [i curr_c] steps IH]; intros w; cbn [Ldrs.offsets].
  - reflexivity.
  - destruct (index nterm_N (i + 1)) as [next_n | e]; cbn [bind].
    + destruct (index nterm_CA (i + 1)) as [next_ca | e]; cbn [bind].
      * destruct (index idr_CA i) as [ca | e]; cbn [bind].
        -- destruct (gates _ _ _).
           ++ destruct (junction idr_resseq idr_res idr_CA idr_O cand i
                          curr_c next_n next_ca w) as [w' | e] eqn:E.
              ** rewrite IH. exact (junction_lead _ _ _ _ _ _ _ _ _ _ _ E).
              ** reflexivity.
           ++ apply IH.
        -- reflexivity.
      * destruct e; reflexivity.
    + destruct e; reflexivity.
Qed.

Lemma candidates_lead (idr_resseq idr_res : list Z)
    (idr_C idr_CA idr_O : list vec3) (lib : list (Z * list atom)) :
  forall w,
    lead (fst (candidates idr_resseq idr_res idr_C idr_CA idr_O lib w))
    = lead w.
Proof.
  induction lib as [ | [cand arr] lib IH]; intros w; cbn [Ldrs.candidates].
  - reflexivity.
  - pose proof (offsets_lead idr_resseq idr_res idr_CA idr_O
                  (named "N" arr) (named "CA" arr) cand (enumerate idr_C)
                  (Window (idr_arr w) arr (O_idx w) (matches w) (written w)))
      as Ho.
    destruct (offsets idr_resseq idr_res idr_CA idr_O (named "N" arr)
                (named "CA" arr) cand (enumerate idr_C)
                (Window (idr_arr w) arr (O_idx w) (matches w) (written w)))
      as [w' [e | ]].
    + exact Ho.
    + rewrite IH. exact Ho.
Qed.

(** X16. The count that [sliding_window] returns is the number of files
    it wrote: one write for each match, whatever the fragment and the
    library. *)
Theorem sliding_window_counts_its_writes (cterm_idr : list atom)
    (nterm_idr_lib : list (list atom)) :
  match snd (sliding_window cterm_idr nterm_idr_lib) with
  | Ok n => n = len (fst (sliding_window cterm_idr nterm_idr_lib))
  | Raise _ => True
  end.
Proof.
  unfold Ldrs.sliding_window.
  pose proof (candidates_lead (seq_of cterm_idr) (res_of_C cterm_idr)
                (named "C" cterm_idr) (named "CA" cterm_idr)
                (named "O" cterm_idr) (enumerate nterm_idr_lib)
                (Window cterm_idr [] None 0 [])) as H.
  destruct (candidates (seq_of cterm_idr) (res_of_C cterm_idr)
              (named "C" cterm_idr) (named "CA" cterm_idr)
              (named "O" cterm_idr) (enumerate nterm_idr_lib)
              (Window cterm_idr [] None 0 [])) as [w [e | ]].
  - exact I.
  - cbn [fst snd] in *. unfold lead in H. cbn [matches written] in H.
    unfold len in *. simpl in H. lia.
Qed.

Lemma offsets_too_short (idr_resseq idr_res : list Z)
    (idr_CA idr_O : list vec3) (arr : list atom) (cand : Z)
    (idr_C : list vec3) (w : window) :
  too_short arr ->
  offsets idr_resseq idr_res idr_CA idr_O (named "N" arr) (named "CA" arr)
          cand (enumerate idr_C) w = (w, None).
Proof.
  intros Hshort. destruct idr_C as [ | c idr_C]; [reflexivity | ].
  unfold enumerate. cbn [enumerate_from Ldrs.offsets].
  change (0 + 1) with 1.
  destruct Hshort as [H | H].
  - rewrite (SurgeonEdgeFacts.index_past_end (named "N" arr) 1)
      by (unfold len; lia).
    reflexivity.
  - destruct (index (named "N" arr) 1) as [next_n | e] eqn:E; cbn [bind].
    + rewrite (SurgeonEdgeFacts.index_past_end (named "CA" arr) 1)
        by (unfold len; lia).
      reflexivity.
    + rewrite (SurgeonEdgeFacts.index_raises_IndexError _ _ _ E).
      reflexivity.
Qed.

Lemma candidates_too_short (idr_resseq idr_res : list Z)
    (idr_C idr_CA idr_O : list vec3) (lib : list (list atom)) :
  Forall too_short lib ->
  forall (k : Z) (w : window),
    exists w',
      candidates idr_resseq idr_res idr_C idr_CA idr_O
                 (enumerate_from k lib) w = (w', None) /\
      matches w' = matches w /\ written w' = written w.
Proof.
  induction 1 as [ | arr lib Harr _ IH]; intros k w.
  - exists w. repeat split.
  - cbn [enumerate_from Ldrs.candidates].
    rewrite offsets_too_short by exact Harr.
    destruct (IH (k + 1)
                (Window (idr_arr w) arr (O_idx w) (matches w) (written w)))
      as (w' & E & Hm & Hw).
    exists w'. repeat split; assumption.
Qed.

(** X17. A library in which every candidate has at most one N atom, or
    at most one CA atom, gives no match: [sliding_window] returns 0 and
    writes nothing, whatever the C-side fragment. *)
Theorem sliding_window_short_candidates (cterm_idr : list atom)
    (nterm_idr_lib : list (list atom)) :
  Forall too_short nterm_idr_lib ->
  sliding_window cterm_idr nterm_idr_lib = ([], Ok 0).
Proof.
  intros H. unfold Ldrs.sliding_window, enumerate.
  destruct (candidates_too_short (seq_of cterm_idr) (res_of_C cterm_idr)
              (named "C" cterm_idr) (named "CA" cterm_idr)
              (named "O" cterm_idr) nterm_idr_lib H 0
              (Window cterm_idr [] None 0 [])) as (w' & E & Hm & Hw).
  rewrite E, Hm, Hw. reflexivity.
Qed.

End Scan.

Lemma sliding_window_short_candidates_witness :
  Ldrs.sliding_window Samples.radii Samples.arccos_series Samples.sin_series
    Samples.exact_cell 40 0.4 Samples.c_side
    [Samples.n_side_residue 1 0; []]
  = ([], Ok 0).
Proof.
  apply (sliding_window_short_candidates Samples.radii Samples.arccos_series
           Samples.sin_series Samples.exact_cell 40 0.4 Samples.c_side
           [Samples.n_side_residue 1 0; []]).
  repeat constructor; left; simpl; lia.
Defined.

End ScanFacts.

(** ** [break_check]: the mismatch that is caught *)

Module BreakCheckEdgeFacts.

Import Ldrs.

Lemma assign_strided_mismatch (n : nat) (rows : list vec3) :
  List.length rows <> n -> List.length rows <> 1%nat ->
  assign_strided n rows = Raise ValueError.
Proof.
  intros Hn H1. unfold assign_strided.
  destruct (Nat.eqb (List.length rows) n) eqn:E.
  - apply Nat.eqb_eq in E. contradiction.
  - destruct rows as [ | r [ | r' rows']]; try reflexivity.
    contradiction H1. reflexivity.
Qed.

Lemma assign_strided_raises (n : nat) (rows : list vec3) (e : exn) :
  assign_strided n rows = Raise e -> e = ValueError.
Proof.
  unfold assign_strided.
  destruct (Nat.eqb (List.length rows) n); [discriminate | ].
  destruct rows as [ | r [ | r' rows']]; intros H; inversion H; reflexivity.
Qed.

Section Mismatch.

Variable has_string_formatters : string -> bool.
Variable contact_message : string.
Variable aa3to1_get : string -> option string.

Local Abbreviation errmsg :=
  "Coordinates do not match expectation. Some possibly missing.".

Lemma backbone_coords_any_mismatch (n ca c : list vec3) :
  (List.length ca <> List.length n /\ List.length ca <> 1%nat) \/
  (List.length c <> List.length n /\ List.length c <> 1%nat) ->
  backbone_coords has_string_formatters contact_message n ca c
  = Raise (Exceptions.init has_string_formatters contact_message [errmsg]).
Proof.
  intros H. unfold backbone_coords.
  replace (assign_strided (List.length n) n) with (@Ok (list vec3) n)
    by (unfold assign_strided; rewrite Nat.eqb_refl; reflexivity).
  cbn [bind].
  destruct (assign_strided (List.length n) ca) as [ca0 | e] eqn:Eca;
    cbn [bind].
  - destruct H as [[Hn H1] | [Hn H1]].
    + rewrite (assign_strided_mismatch _ _ Hn H1) in Eca. discriminate.
    + rewrite (assign_strided_mismatch _ _ Hn H1). reflexivity.
  - rewrite (assign_strided_raises _ _ _ Eca). reflexivity.
Qed.

(** What the call [IDPConfGenException(errmsg)] leaves with: the message
    has no '{}', so the new exception passes its own assertion when
    [has_string_formatters] takes the message for a format, or when the
    default message of the class has exactly one '{}' for the one
    argument. *)
Lemma init_one_message :
  Exceptions.init has_string_formatters contact_message [errmsg]
  = if has_string_formatters errmsg
       || (Exceptions.count_braces (Exceptions.errmsg contact_message) =? 1)
    then IDPConfGenException
    else AssertionError.
Proof.
  unfold Exceptions.init.
  destruct (has_string_formatters errmsg); reflexivity.
Qed.

(** X18. When the rows named "CA", or the rows named "C", are neither as
    many as the rows named "N" nor exactly one, [break_check] returns
    nothing: it leaves with what [IDPConfGenException(errmsg)] leaves
    with. That is [IDPConfGenException] when [has_string_formatters]
    holds of the message or the default message of the class has exactly
    one '{}', and the [AssertionError] of the constructor otherwise. *)
Theorem break_check_count_mismatch (data : list atom) :
  let rows nm := mask_rows nm (map col_name data) (map cols_coords data) in
  (List.length (rows "CA") <> List.length (rows "N") /\
   List.length (rows "CA") <> 1%nat) \/
  (List.length (rows "C") <> List.length (rows "N") /\
   List.length (rows "C") <> 1%nat) ->
  break_check has_string_formatters contact_message aa3to1_get data
  = Raise (if has_string_formatters errmsg
              || (Exceptions.count_braces (Exceptions.errmsg contact_message)
                  =? 1)
           then IDPConfGenException
           else AssertionError).
Proof.
  intros rows H. unfold break_check, backbone_distances.
  cbv zeta. fold (rows "N") (rows "CA") (rows "C").
  rewrite (backbone_coords_any_mismatch _ _ _ H), init_one_message.
  reflexivity.
Qed.

End Mismatch.

Lemma break_check_count_mismatch_witness :
  break_check Samples.find_braces Samples.contact (fun _ => Some "A")
    [ Samples.bb "N" 1 0 0 0; Samples.bb "CA" 1 1.4 0 0;
      Samples.bb "N" 2 2.8 1.4 0; Samples.bb "CA" 2 2.8 2.8 0;
      Samples.bb "N" 3 5 0 0; Samples.bb "CA" 3 6 0 0;
      Samples.bb "C" 3 7 0 0; Samples.bb "C" 1 1 1 1 ]
  = Raise AssertionError.
Proof.
  apply (break_check_count_mismatch Samples.find_braces Samples.contact
           (fun _ => Some "A")).
  right. split; simpl; lia.
Defined.

End BreakCheckEdgeFacts.

(** ** [group_by] *)

Module GroupByFacts.

Import Libparse Reference.

Section Groups.

Variable A : Type.
Variable eqb : A -> A -> bool.
Hypothesis eqb_spec : forall x y, eqb x y = true <-> x = y.

Lemma spell_snoc (gs : list (A * (Z * Z))) (c : A) (a b : Z) :
  spell (gs ++ [(c, (a, b))]) = spell gs ++ repeat c (Z.to_nat (b - a)).
Proof.
  unfold spell. rewrite map_app, concat_app. simpl.
  rewrite app_nil_r. reflexivity.
Qed.

Lemma chained_snoc (gs : list (A * (Z * Z))) :
  forall (s m e : Z) (c : A),
    chained s gs m -> m < e -> chained s (gs ++ [(c, (m, e))]) e.
Proof.
  induction gs as [ | [c' [a b]] gs IH]; intros s m e c H Hlt.
  - simpl in *. subst. repeat split. exact Hlt.
  - simpl in H. destruct H as (Ha & Hab & H).
    simpl. repeat split; try assumption.
    apply IH; assumption.
Qed.

Lemma neighbours_differ_snoc (l : list A) :
  forall (x y : A),
    neighbours_differ (l ++ [x]) -> x <> y ->
    neighbours_differ ((l ++ [x]) ++ [y]).
Proof.
  induction l as [ | z l IH]; intros x y H Hxy.
  - simpl. split; [exact Hxy | exact I].
  - destruct l as [ | z' l'].
    + simpl in *. destruct H as [Hzx _]. repeat split; assumption.
    + simpl in H. destruct H as [Hzz H].
      change (neighbours_differ (z :: ((z' :: l') ++ [x]) ++ [y])).
      simpl. split; [exact Hzz | ]. apply (IH x y); assumption.
Qed.

(** The loop after the rows up to [start + k - 1], the last [k] of them
    (at least one) in the open group of [current]. *)
Lemma group_loop_spec (xs : list A) :
  forall (current : A) (start : Z) (k : nat)
         (groups : list (A * (Z * Z))),
    chained 0 groups start ->
    neighbours_differ (map fst groups ++ [current]) ->
    let out := group_loop eqb (enumerate_from (start + Z.of_nat (S k)) xs)
                 current start current groups (start + Z.of_nat k) in
    spell out = spell groups ++ repeat current (S k) ++ xs /\
    chained 0 out (start + Z.of_nat (S k) + len xs) /\
    neighbours_differ (map fst out).
Proof.
  induction xs as [ | x xs IH]; intros current start k groups Hch Hnd out;
    subst out; cbn [enumerate_from group_loop].
  - split; [ | split].
    + rewrite spell_snoc, app_nil_r.
      replace (Z.to_nat (start + Z.of_nat k + 1 - start)) with (S k) by lia.
      reflexivity.
    + unfold len. simpl List.length. rewrite Z.add_0_r.
      replace (start + Z.of_nat k + 1) with (start + Z.of_nat (S k)) by lia.
      apply chained_snoc; [exact Hch | lia].
    + rewrite map_app. exact Hnd.
  - destruct (eqb x current) eqn:E; cbn [negb].
    + apply eqb_spec in E. subst x.
      replace (start + Z.of_nat (S k) + 1)
        with (start + Z.of_nat (S (S k))) by lia.
      replace (start + Z.of_nat (S k) + len (current :: xs))
        with (start + Z.of_nat (S (S k)) + len xs)
        by (unfold len; simpl List.length; lia).
      destruct (IH current start (S k) groups Hch Hnd) as (H1 & H2 & H3).
      split; [ | split]; try assumption.
      rewrite H1.
      replace (repeat current (S (S k)))
        with (repeat current (S k) ++ [current])
        by (rewrite <- repeat_cons; reflexivity).
      rewrite <- app_assoc. reflexivity.
    + assert (Hne : current <> x).
      { intros ->. assert (Hx : eqb x x = true) by (apply eqb_spec; reflexivity).
        rewrite Hx in E. discriminate. }
      pose proof (IH x (start + Z.of_nat (S k)) 0%nat
                    (groups ++ [(current, (start, start + Z.of_nat (S k)))]))
        as IHx.
      change (Z.of_nat 0) with 0 in IHx. rewrite Z.add_0_r in IHx.
      change (Z.of_nat 1) with 1 in IHx.
      destruct IHx as (H1 & H2 & H3).
      * apply chained_snoc; [exact Hch | lia].
      * rewrite map_app. simpl map.
        apply neighbours_differ_snoc; assumption.
      * split; [ | split]; try assumption.
        -- rewrite H1, spell_snoc.
           replace (Z.to_nat (start + Z.of_nat (S k) - start))
             with (S k) by lia.
           rewrite <- app_assoc. reflexivity.
        -- replace (start + Z.of_nat (S k) + len (x :: xs))
             with (start + Z.of_nat (S k) + 1 + len xs)
             by (unfold len; simpl List.length; lia).
           exact H2.
Qed.

(** The first group carries the datum of [current] when no group is
    closed yet. *)
Lemma group_loop_first (xs : list (Z * A)) :
  forall (prev current : A) (start i : Z),
    exists b rest,
      group_loop eqb xs prev start current [] i
      = (current, (start, b)) :: rest.
Proof.
  assert (H : forall (xs : list (Z * A)) (prev current : A) (start i : Z)
                     (g : A * (Z * Z)) (gs : list (A * (Z * Z))),
             exists rest,
               group_loop eqb xs prev start current (g :: gs) i = g :: rest).
  { clear xs. induction xs as [ | [i' x] xs IH];
      intros prev current start i g gs; cbn [group_loop].
    - eexists. reflexivity.
    - destruct (negb (eqb x prev)); apply IH. }
  induction xs as [ | [i' x] xs IH]; intros prev current start i;
    cbn [group_loop].
  - do 2 eexists. reflexivity.
  - destruct (negb (eqb x prev)).
    + destruct (H xs x x i' i' (current, (start, i')) []) as (rest & E).
      simpl app. rewrite E. do 2 eexists. reflexivity.
    + apply IH.
Qed.

Variable isinstance_str : A -> bool.

(** [group_by] on data that start with [x0]: the assertions look at
    [x0] only. *)
Lemma group_by_unfold (x0 : A) (xs : list A) :
  group_by eqb isinstance_str (x0 :: xs)
  = if isinstance_str x0
    then Ok (group_loop eqb (enumerate_from 1 xs) x0 0 x0 [] 0)
    else Raise AssertionError.
Proof.
  unfold group_by. change (index (x0 :: xs) 0) with (@Ok A x0).
  cbn [bind]. unfold enumerate. cbn [enumerate_from group_loop].
  assert (E : eqb x0 x0 = true) by (apply eqb_spec; reflexivity).
  rewrite E. cbn [negb]. change (0 + 1) with 1.
  destruct (group_loop_first (enumerate_from 1 xs) x0 x0 0 0)
    as (b & rest & Eg).
  rewrite Eg. unfold len. cbn [List.length].
  replace (Z.of_nat (S (List.length rest)) =? 0) with false
    by (symmetry; apply Z.eqb_neq; lia).
  change (index ((x0, (0, b)) :: rest) 0)
    with (@Ok (A * (Z * Z)) (x0, (0, b))).
  cbn [bind fst]. destruct (isinstance_str x0); reflexivity.
Qed.

(** X19. On data whose first datum is a [str], [group_by] returns groups
    whose slices follow each other from 0 to the length of the data,
    none empty, and each datum repeated over its slice spells the data
    back. On data whose first datum is not a [str] it raises
    [AssertionError]. *)
Theorem group_by_round_trip (x0 : A) (xs : list A) :
  (isinstance_str x0 = true ->
   exists groups,
     group_by eqb isinstance_str (x0 :: xs) = Ok groups /\
     spell groups = x0 :: xs /\
     chained 0 groups (len (x0 :: xs))) /\
  (isinstance_str x0 = false ->
   group_by eqb isinstance_str (x0 :: xs) = Raise AssertionError).
Proof.
  rewrite group_by_unfold. split; intros Hs; rewrite Hs; [ | reflexivity].
  pose proof (group_loop_spec xs x0 0 0%nat [] eq_refl I) as H.
  change (Z.of_nat 0) with 0 in H. change (Z.of_nat 1) with 1 in H.
  rewrite Z.add_0_r in H. change (0 + 1) with 1 in H.
  destruct H as (H1 & H2 & _).
  eexists. split; [reflexivity | ]. split.
  - exact H1.
  - replace (len (x0 :: xs)) with (1 + len xs)
      by (unfold len; simpl List.length; lia).
    exact H2.
Qed.

(** X20. No two groups that follow each other carry the same datum:
    every group that [group_by] returns is as long as it can be. *)
Theorem group_by_maximal (data : list A) (groups : list (A * (Z * Z))) :
  group_by eqb isinstance_str data = Ok groups ->
  neighbours_differ (map fst groups).
Proof.
  destruct data as [ | x0 xs]; [discriminate | ].
  rewrite group_by_unfold.
  pose proof (group_loop_spec xs x0 0 0%nat [] eq_refl I) as H.
  change (Z.of_nat 0) with 0 in H. change (Z.of_nat 1) with 1 in H.
  rewrite Z.add_0_r in H. change (0 + 1) with 1 in H.
  destruct H as (_ & _ & H3).
  destruct (isinstance_str x0); [ | discriminate].
  intros Hg. inversion Hg. subst groups. exact H3.
Qed.

End Groups.

Import Ascii.

Lemma ascii_eqb_spec (x y : Ascii.ascii) :
  Ascii.eqb x y = true <-> x = y.
Proof. apply Ascii.eqb_eq. Qed.

(** The characters of a string are strings; integers are not. *)
Lemma group_by_round_trip_witness :
  (exists groups,
     group_by Ascii.eqb (fun _ => true) (list_ascii_of_string "LLLSSE")
     = Ok groups /\
     spell groups = list_ascii_of_string "LLLSSE" /\
     chained 0 groups (len (list_ascii_of_string "LLLSSE"))) /\
  group_by Z.eqb (fun _ => false) [1; 1; 2] = Raise AssertionError.
Proof.
  split.
  - apply (proj1 (group_by_round_trip Ascii.ascii Ascii.eqb ascii_eqb_spec
                    (fun _ => true) "L"%char
                    (list_ascii_of_string "LLSSE"))).
    reflexivity.
  - apply (proj2 (group_by_round_trip Z Z.eqb Z.eqb_eq (fun _ => false)
                    1 [1; 2])).
    reflexivity.
Defined.

Lemma group_by_maximal_witness :
  neighbours_differ
    (map fst [("L"%char, (0, 3)); ("S"%char, (3, 5)); ("E"%char, (5, 6))]).
Proof.
  apply (group_by_maximal Ascii.ascii Ascii.eqb ascii_eqb_spec
           (fun _ => true) (list_ascii_of_string "LLLSSE")).
  reflexivity.
Defined.

End GroupByFacts.
